(** * Gaia system app: the hardware-button state machine

    A shallow embedding of [apps/system/js/hardware_buttons.js].  The module
    keeps one variable [state] that refers to one of five state objects, the
    state objects keep their timers and flags in their own fields, and the
    host supplies [setTimeout]/[clearTimeout], [window.dispatchEvent],
    [console.error] and [ScreenManager.screenEnabled].  All of this is put
    in one record, [World], and every JavaScript function becomes a function
    on worlds. *)

From Stdlib Require Import String List Bool Arith PArith Lia.
Import ListNotations.
Local Open Scope string_scope.
Local Open Scope list_scope.

(** ** Values and the host *)

(** The five state objects; [state] and [wakeState.delegateState] hold
    references to them. *)
Inductive StateObj : Type :=
| baseState
| homeState
| sleepState
| volumeState
| wakeState.

(** The functions handed to [setTimeout].  The closure made by
    [wakeState.enter] captures its argument [type]. *)
Inductive Callback : Type :=
| holdhome_cb
| holdsleep_cb
| repeat_cb
| wakehold_cb (type : option string).

(** A timer waiting in the host's scheduler.  A handle returned by
    [setTimeout] is an integer greater than zero, hence [positive]; the
    source's test [if (this.timer)] is then the test against [null]. *)
Record Timer : Type := mkTimer {
  handle : positive;
  due : nat;
  callback : Callback
}.

(** A [type] argument is a string or, where the caller leaves it out,
    [undefined] (here [None]); a field initialised to [null] is [None]. *)
Record World : Type := mkWorld {
  state : option StateObj;
  homeState_timer : option positive;
  sleepState_timer : option positive;
  volumeState_direction : option string;
  volumeState_timer : option positive;
  volumeState_repeating : bool;
  wakeState_timer : option positive;
  wakeState_delegateState : option StateObj;
  screenEnabled : bool;
  now : nat;
  next_handle : positive;
  pending : list Timer;
  dispatched : list string;
  console : list string
}.

Definition with_state v w :=
  mkWorld v (homeState_timer w) (sleepState_timer w) (volumeState_direction w)
    (volumeState_timer w) (volumeState_repeating w) (wakeState_timer w)
    (wakeState_delegateState w) (screenEnabled w) (now w) (next_handle w)
    (pending w) (dispatched w) (console w).

Definition with_homeState_timer v w :=
  mkWorld (state w) v (sleepState_timer w) (volumeState_direction w)
    (volumeState_timer w) (volumeState_repeating w) (wakeState_timer w)
    (wakeState_delegateState w) (screenEnabled w) (now w) (next_handle w)
    (pending w) (dispatched w) (console w).

Definition with_sleepState_timer v w :=
  mkWorld (state w) (homeState_timer w) v (volumeState_direction w)
    (volumeState_timer w) (volumeState_repeating w) (wakeState_timer w)
    (wakeState_delegateState w) (screenEnabled w) (now w) (next_handle w)
    (pending w) (dispatched w) (console w).

Definition with_volumeState_direction v w :=
  mkWorld (state w) (homeState_timer w) (sleepState_timer w) v
    (volumeState_timer w) (volumeState_repeating w) (wakeState_timer w)
    (wakeState_delegateState w) (screenEnabled w) (now w) (next_handle w)
    (pending w) (dispatched w) (console w).

Definition with_volumeState_timer v w :=
  mkWorld (state w) (homeState_timer w) (sleepState_timer w)
    (volumeState_direction w) v (volumeState_repeating w) (wakeState_timer w)
    (wakeState_delegateState w) (screenEnabled w) (now w) (next_handle w)
    (pending w) (dispatched w) (console w).

Definition with_volumeState_repeating v w :=
  mkWorld (state w) (homeState_timer w) (sleepState_timer w)
    (volumeState_direction w) (volumeState_timer w) v (wakeState_timer w)
    (wakeState_delegateState w) (screenEnabled w) (now w) (next_handle w)
    (pending w) (dispatched w) (console w).

Definition with_wakeState_timer v w :=
  mkWorld (state w) (homeState_timer w) (sleepState_timer w)
    (volumeState_direction w) (volumeState_timer w) (volumeState_repeating w)
    v (wakeState_delegateState w) (screenEnabled w) (now w) (next_handle w)
    (pending w) (dispatched w) (console w).

Definition with_wakeState_delegateState v w :=
  mkWorld (state w) (homeState_timer w) (sleepState_timer w)
    (volumeState_direction w) (volumeState_timer w) (volumeState_repeating w)
    (wakeState_timer w) v (screenEnabled w) (now w) (next_handle w)
    (pending w) (dispatched w) (console w).

Definition with_screenEnabled v w :=
  mkWorld (state w) (homeState_timer w) (sleepState_timer w)
    (volumeState_direction w) (volumeState_timer w) (volumeState_repeating w)
    (wakeState_timer w) (wakeState_delegateState w) v (now w) (next_handle w)
    (pending w) (dispatched w) (console w).

Definition with_now v w :=
  mkWorld (state w) (homeState_timer w) (sleepState_timer w)
    (volumeState_direction w) (volumeState_timer w) (volumeState_repeating w)
    (wakeState_timer w) (wakeState_delegateState w) (screenEnabled w) v
    (next_handle w) (pending w) (dispatched w) (console w).

Definition with_next_handle v w :=
  mkWorld (state w) (homeState_timer w) (sleepState_timer w)
    (volumeState_direction w) (volumeState_timer w) (volumeState_repeating w)
    (wakeState_timer w) (wakeState_delegateState w) (screenEnabled w) (now w)
    v (pending w) (dispatched w) (console w).

Definition with_pending v w :=
  mkWorld (state w) (homeState_timer w) (sleepState_timer w)
    (volumeState_direction w) (volumeState_timer w) (volumeState_repeating w)
    (wakeState_timer w) (wakeState_delegateState w) (screenEnabled w) (now w)
    (next_handle w) v (dispatched w) (console w).

Definition with_dispatched v w :=
  mkWorld (state w) (homeState_timer w) (sleepState_timer w)
    (volumeState_direction w) (volumeState_timer w) (volumeState_repeating w)
    (wakeState_timer w) (wakeState_delegateState w) (screenEnabled w) (now w)
    (next_handle w) (pending w) v (console w).

Definition with_console v w :=
  mkWorld (state w) (homeState_timer w) (sleepState_timer w)
    (volumeState_direction w) (volumeState_timer w) (volumeState_repeating w)
    (wakeState_timer w) (wakeState_delegateState w) (screenEnabled w) (now w)
    (next_handle w) (pending w) (dispatched w) v.

(** [v === s] for a possibly undefined [v] and a string literal [s]. *)
Definition strict_eq (v : option string) (s : string) : bool :=
  match v with
  | Some x => String.eqb x s
  | None => false
  end.

(** *** Host primitives *)

Definition setTimeout (cb : Callback) (delay : nat) (w : World)
  : positive * World :=
  let h := next_handle w in
  (h, with_next_handle (Pos.succ h)
        (with_pending (pending w ++ [mkTimer h (now w + delay) cb]) w)).

Definition remove_timer (h : positive) (l : list Timer) : list Timer :=
  filter (fun t => negb (Pos.eqb (handle t) h)) l.

Definition clearTimeout (h : positive) (w : World) : World :=
  with_pending (remove_timer h (pending w)) w.

(** [console.error('Unexpected hardware key: ', type)] *)
Definition console_error (type : string) (w : World) : World :=
  with_console (console w ++ [type]) w.

(** ** The module *)

Definition HOLD_INTERVAL : nat := 1500.
Definition REPEAT_DELAY : nat := 700.
Definition REPEAT_INTERVAL : nat := 100.

(** [window.dispatchEvent(new Event(type))] *)
Definition fire (type : string) (w : World) : World :=
  with_dispatched (dispatched w ++ [type]) w.

Definition homeState_enter (w : World) : World :=
  let (h, w1) := setTimeout holdhome_cb HOLD_INTERVAL w in
  with_homeState_timer (Some h) w1.

Definition homeState_exit (w : World) : World :=
  match homeState_timer w with
  | Some h => with_homeState_timer None (clearTimeout h w)
  | None => w
  end.

Definition sleepState_enter (w : World) : World :=
  let (h, w1) := setTimeout holdsleep_cb HOLD_INTERVAL w in
  with_sleepState_timer (Some h) w1.

Definition sleepState_exit (w : World) : World :=
  match sleepState_timer w with
  | Some h => with_sleepState_timer None (clearTimeout h w)
  | None => w
  end.

Definition volumeState_enter (type : option string) (w : World) : World :=
  let w1 := with_volumeState_direction type w in
  let w2 := with_volumeState_repeating false w1 in
  let (h, w3) := setTimeout repeat_cb REPEAT_DELAY w2 in
  with_volumeState_timer (Some h) w3.

Definition volumeState_exit (w : World) : World :=
  match volumeState_timer w with
  | Some h => with_volumeState_timer None (clearTimeout h w)
  | None => w
  end.

Definition wakeState_enter (type : option string) (w : World) : World :=
  let w1 :=
    if strict_eq type "home-button-press"
    then with_wakeState_delegateState (Some homeState) w
    else with_wakeState_delegateState (Some sleepState) w in
  let (h, w2) := setTimeout (wakehold_cb type) HOLD_INTERVAL w1 in
  with_wakeState_timer (Some h) w2.

Definition wakeState_exit (w : World) : World :=
  match wakeState_timer w with
  | Some h => with_wakeState_timer None (clearTimeout h w)
  | None => w
  end.

(** [s.exit(type)] and [s.enter(type)] where the object has the method;
    [baseState] has neither. *)
Definition exit (s : StateObj) (type : option string) (w : World) : World :=
  match s with
  | baseState => w
  | homeState => homeState_exit w
  | sleepState => sleepState_exit w
  | volumeState => volumeState_exit w
  | wakeState => wakeState_exit w
  end.

Definition enter (s : StateObj) (type : option string) (w : World) : World :=
  match s with
  | baseState => w
  | homeState => homeState_enter w
  | sleepState => sleepState_enter w
  | volumeState => volumeState_enter type w
  | wakeState => wakeState_enter type w
  end.

Definition setState (s : StateObj) (type : option string) (w : World)
  : World :=
  let w1 := match state w with
            | Some cur => exit cur type w
            | None => w
            end in
  enter s type (with_state (Some s) w1).

Definition volumeState_repeat (w : World) : World :=
  let w1 := with_volumeState_repeating true w in
  let w2 := if strict_eq (volumeState_direction w1) "volume-up-button-press"
            then fire "volumeup" w1
            else fire "volumedown" w1 in
  let (h, w3) := setTimeout repeat_cb REPEAT_INTERVAL w2 in
  with_volumeState_timer (Some h) w3.

Definition run_callback (cb : Callback) (w : World) : World :=
  match cb with
  | holdhome_cb => setState baseState None (fire "holdhome" w)
  | holdsleep_cb => setState baseState None (fire "holdsleep" w)
  | repeat_cb => volumeState_repeat w
  | wakehold_cb type =>
      let w1 := if strict_eq type "home-button-press" then fire "holdhome" w
                else if strict_eq type "sleep-button-press"
                     then fire "holdsleep" w
                     else w in
      setState baseState type w1
  end.

(** The two statements after the [switch] of [homeState], [sleepState] and
    [volumeState]. *)
Definition unexpected (type : string) (w : World) : World :=
  setState baseState (Some type) (console_error type w).

Definition baseState_process (type : string) (w : World) : World :=
  if type =? "home-button-press" then
    if negb (screenEnabled w)
    then setState wakeState (Some type) (fire "wake" w)
    else setState homeState (Some type) w
  else if type =? "sleep-button-press" then
    if negb (screenEnabled w)
    then setState wakeState (Some type) (fire "wake" w)
    else setState sleepState (Some type) w
  else if (type =? "volume-up-button-press")
          || (type =? "volume-down-button-press") then
    setState volumeState (Some type) w
  else if (type =? "home-button-release")
          || (type =? "sleep-button-release")
          || (type =? "volume-up-button-release")
          || (type =? "volume-down-button-release") then
    w
  else console_error type w.

Definition homeState_process (type : string) (w : World) : World :=
  if type =? "home-button-release" then
    setState baseState (Some type) (fire "home" w)
  else if type =? "sleep-button-press" then
    setState baseState (Some type) (fire "home+sleep" w)
  else if (type =? "volume-up-button-press")
          || (type =? "volume-down-button-press") then
    setState baseState (Some type) (fire "home+volume" w)
  else unexpected type w.

Definition sleepState_process (type : string) (w : World) : World :=
  if type =? "sleep-button-release" then
    setState baseState (Some type) (fire "sleep" w)
  else if type =? "home-button-press" then
    setState baseState (Some type) (fire "home+sleep" w)
  else if (type =? "volume-up-button-press")
          || (type =? "volume-down-button-press") then
    setState volumeState (Some type) w
  else unexpected type w.

Definition volumeState_process (type : string) (w : World) : World :=
  if type =? "home-button-press" then
    setState baseState (Some type) (fire "home+volume" w)
  else if type =? "sleep-button-press" then
    setState sleepState (Some type) w
  else if type =? "volume-up-button-release" then
    if strict_eq (volumeState_direction w) "volume-up-button-press" then
      setState baseState (Some type)
        (if negb (volumeState_repeating w) then fire "volumeup" w else w)
    else unexpected type w
  else if type =? "volume-down-button-release" then
    if strict_eq (volumeState_direction w) "volume-down-button-press" then
      setState baseState (Some type)
        (if negb (volumeState_repeating w) then fire "volumedown" w else w)
    else unexpected type w
  else w.

(** [this.delegateState.process(type)] throws when the field is [null];
    the source only ever stores [homeState] or [sleepState] there, and a
    delegate that was [wakeState] itself would call itself without end.
    Both are reported as [None]. *)
Definition wakeState_process (type : string) (w : World) : option World :=
  if (type =? "home-button-release") || (type =? "sleep-button-release") then
    Some (setState baseState (Some type) w)
  else
    match wakeState_delegateState w with
    | Some baseState => Some (baseState_process type w)
    | Some homeState => Some (homeState_process type w)
    | Some sleepState => Some (sleepState_process type w)
    | Some volumeState => Some (volumeState_process type w)
    | Some wakeState => None
    | None => None
    end.

Definition process (s : StateObj) (type : string) (w : World)
  : option World :=
  match s with
  | baseState => Some (baseState_process type w)
  | homeState => Some (homeState_process type w)
  | sleepState => Some (sleepState_process type w)
  | volumeState => Some (volumeState_process type w)
  | wakeState => wakeState_process type w
  end.

(** The eight [detail.type] values the listener lets through. *)
Definition button_types : list string :=
  [ "home-button-press"; "home-button-release";
    "sleep-button-press"; "sleep-button-release";
    "volume-up-button-press"; "volume-up-button-release";
    "volume-down-button-press"; "volume-down-button-release" ].

Definition is_button_type (type : string) : bool :=
  existsb (String.eqb type) button_types.

(** The [mozChromeEvent] listener; [state.process] on an undefined [state]
    throws, reported as [None]. *)
Definition onMozChromeEvent (type : string) (w : World) : option World :=
  if is_button_type type then
    match state w with
    | Some s => process s type w
    | None => None
    end
  else Some w.

(** ** The event loop

    Time advances one millisecond at a time.  After each millisecond the
    timers that have come due are taken in the order they were set; each one
    that is still pending is removed from the scheduler and its callback is
    run. *)

Definition has_handle (h : positive) (l : list Timer) : bool :=
  existsb (fun t => Pos.eqb (handle t) h) l.

Definition expire (w : World) (t : Timer) : World :=
  if has_handle (handle t) (pending w)
  then run_callback (callback t) (clearTimeout (handle t) w)
  else w.

Definition due_timers (w : World) : list Timer :=
  filter (fun t => Nat.leb (due t) (now w)) (pending w).

Definition tick (w : World) : World :=
  let w1 := with_now (S (now w)) w in
  fold_left expire (due_timers w1) w1.

Definition elapse (ms : nat) (w : World) : World := Nat.iter ms tick w.

(** What can happen to the module: a raw button event arrives, time passes,
    or the screen is switched on or off by the rest of the system. *)
Inductive Input : Type :=
| MozChromeEvent (type : string)
| Elapse (ms : nat)
| ScreenChange (enabled : bool).

Definition step (i : Input) (w : World) : option World :=
  match i with
  | MozChromeEvent type => onMozChromeEvent type w
  | Elapse ms => Some (elapse ms w)
  | ScreenChange b => Some (with_screenEnabled b w)
  end.

Fixpoint run (l : list Input) (w : World) : option World :=
  match l with
  | [] => Some w
  | i :: l' =>
      match step i w with
      | Some w' => run l' w'
      | None => None
      end
  end.

(** The world before the module's body has run, and after its last line,
    [setState(baseState)]. *)
Definition unloaded (screen : bool) (clock : nat) (next : positive) : World :=
  mkWorld None None None None None false None None screen clock next [] [] [].

Definition loaded (screen : bool) (clock : nat) (next : positive) : World :=
  setState baseState None (unloaded screen clock next).


(** ** Vocabulary of the properties *)

(** The state object whose [enter] (or [repeat]) arms a callback. *)
Definition owner (cb : Callback) : StateObj :=
  match cb with
  | holdhome_cb => homeState
  | holdsleep_cb => sleepState
  | repeat_cb => volumeState
  | wakehold_cb _ => wakeState
  end.

(** The shape of every world the module can be in: [state] is set, the
    scheduler holds exactly the timer of the current state (none in base),
    that state's [timer] field holds its handle, a volume gesture has a
    direction and a wake state has its delegate. *)
Definition well_formed (w : World) : Prop :=
  match state w with
  | None => False
  | Some baseState => pending w = []
  | Some homeState =>
      exists h d, pending w = [mkTimer h d holdhome_cb] /\
                  homeState_timer w = Some h /\
                  (h < next_handle w)%positive
  | Some sleepState =>
      exists h d, pending w = [mkTimer h d holdsleep_cb] /\
                  sleepState_timer w = Some h /\
                  (h < next_handle w)%positive
  | Some volumeState =>
      exists h d, pending w = [mkTimer h d repeat_cb] /\
                  volumeState_timer w = Some h /\
                  (h < next_handle w)%positive /\
                  (volumeState_direction w = Some "volume-up-button-press" \/
                   volumeState_direction w = Some "volume-down-button-press")
  | Some wakeState =>
      exists h d ty, pending w = [mkTimer h d (wakehold_cb (Some ty))] /\
                     wakeState_timer w = Some h /\
                     (h < next_handle w)%positive /\
                     ((ty = "home-button-press" /\
                       wakeState_delegateState w = Some homeState) \/
                      (ty = "sleep-button-press" /\
                       wakeState_delegateState w = Some sleepState))
  end.

(** [follows w w']: handles are never reused, and a timer that was pending
    in [w] is still pending in [w'] only if the state has not been left. *)
Definition follows (w w' : World) : Prop :=
  (next_handle w <= next_handle w')%positive /\
  forall t, In t (pending w') ->
            (state w' = state w /\ In t (pending w)) \/
            (next_handle w <= handle t)%positive.

(** A handle that has been given out and is no longer in the scheduler. *)
Definition retired (h : positive) (w : World) : Prop :=
  (h < next_handle w)%positive /\ ~ In h (map handle (pending w)).

(** The volume-up button is down: the machine is in the volume state with
    direction up and its repeat timer is due at [d]. *)
Definition held_up (w : World) (d : nat) : Prop :=
  state w = Some volumeState /\
  volumeState_direction w = Some "volume-up-button-press" /\
  now w < d /\
  exists h, pending w = [mkTimer h d repeat_cb] /\ volumeState_timer w = Some h.

(** Membership in a list of string literals, as a [switch] tests it. *)
Definition one_of (type : string) (l : list string) : bool :=
  existsb (String.eqb type) l.

(** The signals that the [switch] of a state object's [process] deals with
    inside the [switch]: every other signal leaves the [switch] and reaches
    the statements after it.  For [volumeState] a release is dealt with only
    when it matches the direction, and the [default] label takes the rest. *)
Definition switch_handles (s : StateObj) (w : World) (type : string) : bool :=
  match s with
  | baseState => one_of type button_types
  | homeState =>
      one_of type [ "home-button-release"; "sleep-button-press";
                    "volume-up-button-press"; "volume-down-button-press" ]
  | sleepState =>
      one_of type [ "sleep-button-release"; "home-button-press";
                    "volume-up-button-press"; "volume-down-button-press" ]
  | volumeState =>
      if type =? "volume-up-button-release" then
        strict_eq (volumeState_direction w) "volume-up-button-press"
      else if type =? "volume-down-button-release" then
        strict_eq (volumeState_direction w) "volume-down-button-press"
      else true
  | wakeState => one_of type [ "home-button-release"; "sleep-button-release" ]
  end.

(** The transition table of the current state defines the signal; the wake
    state passes what it does not deal with itself to its delegate. *)
Definition table_defines (w : World) (type : string) : bool :=
  match state w with
  | Some wakeState =>
      switch_handles wakeState w type ||
      match wakeState_delegateState w with
      | Some d => switch_handles d w type
      | None => false
      end
  | Some s => switch_handles s w type
  | None => false
  end.

(** A signal is ignored in the volume state: it is processed, nothing is
    fired and the machine is still in the volume state. *)
Definition ignored_in_volume (type : string) (w : World) : Prop :=
  exists w', onMozChromeEvent type w = Some w' /\
             dispatched w' = dispatched w /\
             state w' = Some volumeState.

(** The release and the high-level event that belong to a volume press. *)
Definition release_of (type : string) : string :=
  if type =? "volume-up-button-press" then "volume-up-button-release"
  else "volume-down-button-release".

Definition event_of (type : string) : string :=
  if type =? "volume-up-button-press" then "volumeup" else "volumedown".

(** The world in which volume-down has just gone down, display on. *)
Definition volume_down_held : World :=
  setState volumeState (Some "volume-down-button-press") (loaded true 0 1).

(** The world in which home has just gone down, display on. *)
Definition home_held : World :=
  setState homeState (Some "home-button-press") (loaded true 0 1).

(** The world after a volume-up press held for a second and released. *)
Definition after_autorepeat : World :=
  setState baseState (Some "volume-up-button-release")
    (elapse 1000
       (setState volumeState (Some "volume-up-button-press")
          (loaded true 0 1))).

(** A volume button is down: the machine is in the volume state with
    direction [press] and its repeat timer is due at [d]. *)
Definition held (press : string) (w : World) (d : nat) : Prop :=
  state w = Some volumeState /\
  volumeState_direction w = Some press /\
  now w < d /\
  exists h, pending w = [mkTimer h d repeat_cb] /\ volumeState_timer w = Some h.

(** Inputs that press no button: time passing and releases. *)
Definition no_press (i : Input) : Prop :=
  (exists ms, i = Elapse ms) \/
  i = MozChromeEvent "home-button-release" \/
  i = MozChromeEvent "sleep-button-release" \/
  i = MozChromeEvent "volume-up-button-release" \/
  i = MozChromeEvent "volume-down-button-release".

(** The types of the high-level events, as the header of the source lists
    them. *)
Definition event_types : list string :=
  [ "home"; "holdhome"; "sleep"; "wake"; "holdsleep";
    "volumeup"; "volumedown"; "home+sleep"; "home+volume" ].

(** [l'] is [l] with at most one entry added at its end, taken from
    [allowed]. *)
Definition grows_by_one (allowed l l' : list string) : Prop :=
  exists new, l' = l ++ new /\ length new <= 1 /\
              Forall (fun e => In e allowed) new.

(** The longest delay with which a callback is ever scheduled. *)
Definition delay_of (cb : Callback) : nat :=
  match cb with
  | repeat_cb => REPEAT_DELAY
  | _ => HOLD_INTERVAL
  end.

(** No pending timer is overdue, and none is due later than its delay. *)
Definition timely (w : World) : Prop :=
  Forall (fun t => now w < due t /\ due t <= now w + delay_of (callback t))
         (pending w).

(** The event that the hold timer of the current state fires. *)
Definition hold_event (w : World) : string :=
  match state w with
  | Some homeState => "holdhome"
  | Some sleepState => "holdsleep"
  | Some wakeState =>
      match wakeState_delegateState w with
      | Some homeState => "holdhome"
      | _ => "holdsleep"
      end
  | _ => ""
  end.

(** The combination as a gesture with no bound on the time between the
    two presses: with the display on, a home press and, [n] milliseconds
    later and before any release, a sleep press fire exactly [home+sleep]
    and leave the machine in base. *)
Definition combo_whenever (n : nat) (w : World) : Prop :=
  exists w1 w2,
    onMozChromeEvent "home-button-press" w = Some w1 /\
    onMozChromeEvent "sleep-button-press" (elapse n w1) = Some w2 /\
    dispatched w2 = dispatched w ++ ["home+sleep"] /\
    state w2 = Some baseState.

(** ** Basic facts about the host primitives and the event loop *)

Arguments remove_timer : simpl never.
Arguments has_handle : simpl never.

Lemma remove_timer_nil h : remove_timer h [] = [].
Proof. reflexivity. Qed.

Lemma remove_timer_single h d cb : remove_timer h [mkTimer h d cb] = [].
Proof. unfold remove_timer; simpl. now rewrite Pos.eqb_refl. Qed.

Lemma has_handle_single h d cb : has_handle h [mkTimer h d cb] = true.
Proof. unfold has_handle; simpl. now rewrite Pos.eqb_refl. Qed.

Lemma is_button_type_In type :
  is_button_type type = true -> In type button_types.
Proof.
  unfold is_button_type. rewrite existsb_exists.
  intros (x & Hin & Heq). apply String.eqb_eq in Heq. now subst.
Qed.

Lemma with_now_now w : with_now (now w) w = w.
Proof. now destruct w. Qed.

Lemma elapse_S n w : elapse (S n) w = tick (elapse n w).
Proof. reflexivity. Qed.

Lemma elapse_add a b w : elapse (a + b) w = elapse b (elapse a w).
Proof.
  unfold elapse. rewrite Nat.add_comm. apply Nat.iter_add.
Qed.

(** A millisecond in which no timer comes due only moves the clock. *)
Lemma tick_idle w :
  Forall (fun t => S (now w) < due t) (pending w) ->
  tick w = with_now (S (now w)) w.
Proof.
  intros H. unfold tick, due_timers. cbn [pending now with_now].
  replace (filter _ (pending w)) with (@nil Timer); [reflexivity|].
  symmetry. induction H as [|t l Ht _ IH]; [reflexivity|].
  simpl. destruct (Nat.leb_spec (due t) (S (now w))); [lia|assumption].
Qed.

Lemma elapse_idle n : forall w,
  Forall (fun t => now w + n < due t) (pending w) ->
  elapse n w = with_now (now w + n) w.
Proof.
  induction n as [|n IH]; intros w H.
  - rewrite Nat.add_0_r. symmetry. apply with_now_now.
  - rewrite elapse_S, IH.
    + rewrite tick_idle; cbn [now pending with_now].
      * now rewrite Nat.add_succ_r.
      * eapply Forall_impl; [|exact H]. cbn. intros; lia.
    + eapply Forall_impl; [|exact H]. cbn. intros; lia.
Qed.

Lemma elapse_quiet n w :
  pending w = [] -> elapse n w = with_now (now w + n) w.
Proof. intros H. apply elapse_idle. rewrite H. constructor. Qed.

Lemma elapse_before n w t :
  pending w = [t] -> now w + n < due t ->
  elapse n w = with_now (now w + n) w.
Proof. intros H Hn. apply elapse_idle. rewrite H. now repeat constructor. Qed.

(** The millisecond in which the only pending timer comes due: the timer
    leaves the scheduler and its callback runs. *)
Lemma tick_fire w t :
  pending w = [t] -> due t <= S (now w) ->
  tick w = run_callback (callback t) (with_pending [] (with_now (S (now w)) w)).
Proof.
  intros H Hd. unfold tick, due_timers. cbn [pending now with_now]. rewrite H.
  simpl. destruct (Nat.leb_spec (due t) (S (now w))); [|lia].
  simpl. unfold expire, clearTimeout. cbn [pending with_now]. rewrite H.
  destruct t as [h d cb]. cbn [handle callback].
  now rewrite has_handle_single, remove_timer_single.
Qed.

Lemma elapse_until n w t :
  pending w = [t] -> now w < due t -> now w + n = due t ->
  elapse n w = run_callback (callback t) (with_pending [] (with_now (due t) w)).
Proof.
  intros H Hlt Hn. destruct n as [|n]; [lia|].
  rewrite elapse_S, (elapse_before n w t H) by lia.
  rewrite (tick_fire _ t); cbn [now pending with_now]; [|assumption|lia].
  now replace (S (now w + n)) with (due t) by lia.
Qed.

(** ** The invariant *)

Lemma follows_refl w : follows w w.
Proof.
  split; [apply Pos.le_refl|]. intros t Ht. left. now split.
Qed.

Lemma follows_trans w1 w2 w3 : follows w1 w2 -> follows w2 w3 -> follows w1 w3.
Proof.
  intros [Hn1 Hp1] [Hn2 Hp2]. split; [eapply Pos.le_trans; eassumption|].
  intros t Ht. destruct (Hp2 t Ht) as [[Hs Hin]|Hnew].
  - destruct (Hp1 t Hin) as [[Hs' Hin']|Hnew].
    + left. split; [congruence|assumption].
    + now right.
  - right. eapply Pos.le_trans; eassumption.
Qed.

Lemma retired_follows h w w' : retired h w -> follows w w' -> retired h w'.
Proof.
  intros [Hlt Hnot] [Hn Hp]. split.
  - eapply Pos.lt_le_trans; eassumption.
  - intros Hin. apply in_map_iff in Hin as (t & Hh & Ht).
    destruct (Hp t Ht) as [[_ Hold]|Hnew].
    + apply Hnot. apply in_map_iff. now exists t.
    + subst h. apply Pos.lt_nle in Hlt. contradiction.
Qed.

(** Evaluation of the module's functions on a world given field by field.
    Arithmetic and the scheduler's tests on handles are left as they are; the
    latter are settled by rewriting, as the handles are variables. *)
Ltac norm :=
  lazy -[remove_timer has_handle Nat.add Nat.sub Nat.mul Nat.leb app repeat
         Pos.succ Pos.lt Pos.le lt In map elapse tick].

Ltac norm_in H :=
  lazy -[remove_timer has_handle Nat.add Nat.sub Nat.mul Nat.leb app repeat
         Pos.succ Pos.lt Pos.le lt In map elapse tick] in H.

Ltac crunch :=
  repeat (norm; rewrite ?app_nil_l, ?remove_timer_single, ?remove_timer_nil,
                        ?has_handle_single).

(** The two halves of an invariant goal once the new world is known. *)
Ltac close_wf :=
  unfold well_formed; crunch;
  first [ reflexivity
        | do 2 eexists; repeat split;
          first [reflexivity | apply Pos.lt_succ_diag_r | eassumption
                | (left; reflexivity) | (right; reflexivity)]
        | do 3 eexists; repeat split;
          first [reflexivity | apply Pos.lt_succ_diag_r | eassumption
                | (left; split; reflexivity) | (right; split; reflexivity)] ].

Ltac close_follows :=
  split; crunch;
  [ first [apply Pos.le_refl | apply Pos.lt_le_incl, Pos.lt_succ_diag_r]
  | intros ? Hin; repeat (destruct Hin as [Hin|Hin]); try contradiction;
    subst; cbn;
    first [ right; apply Pos.le_refl
          | left; split; [reflexivity | now left] ] ].

(** The eight cases of a signal known to be a button type. *)
Ltac each_signal E ty :=
  cbn in E; decompose [or] E; try contradiction; subst ty.

Ltac step_case :=
  eexists; split; [crunch; reflexivity|split; [close_wf|close_follows]].

Lemma onMozChromeEvent_invariant type w :
  well_formed w ->
  exists w', onMozChromeEvent type w = Some w' /\ well_formed w' /\ follows w w'.
Proof.
  intros H. destruct (is_button_type type) eqn:E.
  2:{ exists w. unfold onMozChromeEvent. rewrite E.
      split; [reflexivity|split; [assumption|apply follows_refl]]. }
  apply is_button_type_In in E.
  destruct w as [st ht slt dir vt rep wt dg scr clk nxt pend evs cons].
  unfold well_formed in H; cbn in H.
  destruct st as [[]|]; [| | | | |contradiction].
  - subst pend. destruct scr; each_signal E type; step_case.
  - destruct H as (h & d & -> & -> & Hlt).
    each_signal E type; step_case.
  - destruct H as (h & d & -> & -> & Hlt).
    each_signal E type; step_case.
  - destruct H as (h & d & -> & -> & Hlt & [-> | ->]); destruct rep;
    each_signal E type; step_case.
  - destruct H as (h & d & ty & -> & -> & Hlt & [[-> ->] | [-> ->]]);
    each_signal E type; step_case.
Qed.

(** One millisecond in a world whose only timer is [t]: either [t] comes
    due and fires, or nothing happens. *)
Ltac tick_cases d clk :=
  destruct (Nat.le_gt_cases d (S clk));
  [ erewrite tick_fire by (cbn; first [reflexivity|eassumption])
  | rewrite tick_idle by (repeat constructor; assumption) ];
  (split; [close_wf|split; [close_follows|]]);
  crunch; first [left; reflexivity | right; reflexivity].

(** A timer never enters a state other than base. *)
Lemma tick_invariant w :
  well_formed w ->
  well_formed (tick w) /\ follows w (tick w) /\
  (state (tick w) = state w \/ state (tick w) = Some baseState).
Proof.
  intros H.
  destruct w as [st ht slt dir vt rep wt dg scr clk nxt pend evs cons].
  unfold well_formed in H; cbn in H.
  destruct st as [[]|]; [| | | | |contradiction].
  - subst pend. rewrite tick_idle by constructor.
    split; [close_wf|split; [close_follows|now left]].
  - destruct H as (h & d & -> & -> & Hlt). tick_cases d clk.
  - destruct H as (h & d & -> & -> & Hlt). tick_cases d clk.
  - destruct H as (h & d & -> & -> & Hlt & [-> | ->]); tick_cases d clk.
  - destruct H as (h & d & ty & -> & -> & Hlt & [[-> ->] | [-> ->]]);
      tick_cases d clk.
Qed.

Lemma elapse_invariant n w :
  well_formed w ->
  well_formed (elapse n w) /\ follows w (elapse n w) /\
  (state (elapse n w) = state w \/ state (elapse n w) = Some baseState).
Proof.
  intros H. induction n as [|n (IHwf & IHf & IHs)].
  - split; [assumption|]. split; [apply follows_refl|now left].
  - rewrite elapse_S. destruct (tick_invariant _ IHwf) as (Hwf & Hf & Hs).
    split; [assumption|]. split; [eapply follows_trans; eassumption|].
    destruct Hs as [Hs|Hs]; [|now right].
    rewrite Hs. exact IHs.
Qed.

Lemma step_invariant i w :
  well_formed w ->
  exists w', step i w = Some w' /\ well_formed w' /\ follows w w'.
Proof.
  intros H. destruct i as [type|ms|b].
  - now apply onMozChromeEvent_invariant.
  - exists (elapse ms w). split; [reflexivity|].
    destruct (elapse_invariant ms w H) as (Hwf & Hf & _). now split.
  - exists (with_screenEnabled b w). split; [reflexivity|].
    split; [unfold well_formed in *; cbn; exact H|].
    split; cbn; [apply Pos.le_refl|]. intros t Ht. left. now split.
Qed.

Lemma run_invariant l : forall w,
  well_formed w ->
  exists w', run l w = Some w' /\ well_formed w' /\ follows w w'.
Proof.
  induction l as [|i l IH]; intros w H.
  - exists w. split; [reflexivity|]. split; [assumption|apply follows_refl].
  - destruct (step_invariant i w H) as (w1 & Hs & Hwf & Hf).
    destruct (IH w1 Hwf) as (w2 & Hr & Hwf2 & Hf2).
    exists w2. cbn. rewrite Hs. split; [assumption|].
    split; [assumption|]. eapply follows_trans; eassumption.
Qed.

Lemma loaded_well_formed screen clock next :
  well_formed (loaded screen clock next).
Proof. reflexivity. Qed.

Lemma reachable_well_formed screen clock next l w :
  run l (loaded screen clock next) = Some w -> well_formed w.
Proof.
  intros H.
  destruct (run_invariant l _ (loaded_well_formed screen clock next))
    as (w' & Hr & Hwf & _).
  congruence.
Qed.

Lemma well_formed_owner w t :
  well_formed w -> In t (pending w) -> state w = Some (owner (callback t)).
Proof.
  unfold well_formed. intros H Hin.
  destruct (state w) as [[]|]; [| | | | |contradiction].
  - rewrite H in Hin. contradiction.
  - destruct H as (h & d & Hp & _). rewrite Hp in Hin.
    destruct Hin as [<-|[]]. reflexivity.
  - destruct H as (h & d & Hp & _). rewrite Hp in Hin.
    destruct Hin as [<-|[]]. reflexivity.
  - destruct H as (h & d & Hp & _). rewrite Hp in Hin.
    destruct Hin as [<-|[]]. reflexivity.
  - destruct H as (h & d & ty & Hp & _). rewrite Hp in Hin.
    destruct Hin as [<-|[]]. reflexivity.
Qed.

Lemma well_formed_one_timer w : well_formed w -> length (pending w) <= 1.
Proof.
  unfold well_formed. intros H.
  destruct (state w) as [[]|]; [| | | | |contradiction].
  - rewrite H. cbn. lia.
  - destruct H as (h & d & -> & _). cbn. lia.
  - destruct H as (h & d & -> & _). cbn. lia.
  - destruct H as (h & d & -> & _). cbn. lia.
  - destruct H as (h & d & ty & -> & _). cbn. lia.
Qed.

Lemma well_formed_fresh w t :
  well_formed w -> In t (pending w) -> (handle t < next_handle w)%positive.
Proof.
  unfold well_formed. intros H Hin.
  destruct (state w) as [[]|]; [| | | | |contradiction].
  - rewrite H in Hin. contradiction.
  - destruct H as (h & d & Hp & _ & Hlt). rewrite Hp in Hin.
    destruct Hin as [<-|[]]. exact Hlt.
  - destruct H as (h & d & Hp & _ & Hlt). rewrite Hp in Hin.
    destruct Hin as [<-|[]]. exact Hlt.
  - destruct H as (h & d & Hp & _ & Hlt & _). rewrite Hp in Hin.
    destruct Hin as [<-|[]]. exact Hlt.
  - destruct H as (h & d & ty & Hp & _ & Hlt & _). rewrite Hp in Hin.
    destruct Hin as [<-|[]]. exact Hlt.
Qed.

(** ** Gestures *)

(** Side conditions: a field of a known world, or a bound on the clock. *)
Ltac side :=
  crunch; unfold HOLD_INTERVAL, REPEAT_DELAY, REPEAT_INTERVAL in *;
  first [reflexivity | lia | assumption].

(** C4. Display off, in base: a sleep press fires [wake] at once and enters
    the wake state standing in for sleep.  Held for [HOLD_INTERVAL] or longer
    without a release, exactly one [holdsleep] follows and the machine is
    back in base.  Released earlier, nothing but the [wake] is ever fired:
    no [sleep], no [holdsleep], however long one waits afterwards. *)
Theorem wake_then_hold w :
  state w = Some baseState -> pending w = [] -> screenEnabled w = false ->
  exists w1,
    onMozChromeEvent "sleep-button-press" w = Some w1 /\
    dispatched w1 = dispatched w ++ ["wake"] /\
    state w1 = Some wakeState /\
    wakeState_delegateState w1 = Some sleepState /\
    (forall n, HOLD_INTERVAL <= n ->
       dispatched (elapse n w1) = dispatched w ++ ["wake"; "holdsleep"] /\
       state (elapse n w1) = Some baseState /\
       pending (elapse n w1) = []) /\
    (forall n, n < HOLD_INTERVAL ->
       dispatched (elapse n w1) = dispatched w ++ ["wake"] /\
       exists w2,
         onMozChromeEvent "sleep-button-release" (elapse n w1) = Some w2 /\
         state w2 = Some baseState /\
         forall m, dispatched (elapse m w2) = dispatched w ++ ["wake"]).
Proof.
  destruct w as [st ht slt dir vt rep wt dg scr clk nxt pend evs cons].
  cbn. intros -> -> ->.
  eexists. split; [crunch; reflexivity|].
  split; [side|]. split; [side|]. split; [side|]. split.
  - intros n Hn. unfold HOLD_INTERVAL in Hn.
    replace n with (1500 + (n - 1500)) by lia. rewrite elapse_add.
    erewrite (elapse_until 1500) by side.
    rewrite elapse_quiet by side.
    split; [|split; side].
    crunch. now rewrite <- app_assoc.
  - intros n Hn. unfold HOLD_INTERVAL in Hn.
    erewrite elapse_before by side.
    split; [side|].
    eexists. split; [crunch; reflexivity|]. split; [side|].
    intros m. rewrite elapse_quiet by side. side.
Qed.

(** C7. Display on, in base: a home press and, before the hold timer fires,
    a home release fire exactly one event, [home], at the release; the
    machine is back in base and no [holdhome] follows later. *)
Theorem home_tap w n :
  state w = Some baseState -> pending w = [] -> screenEnabled w = true ->
  n < HOLD_INTERVAL ->
  exists w1 w2,
    onMozChromeEvent "home-button-press" w = Some w1 /\
    dispatched (elapse n w1) = dispatched w /\
    onMozChromeEvent "home-button-release" (elapse n w1) = Some w2 /\
    dispatched w2 = dispatched w ++ ["home"] /\
    state w2 = Some baseState /\
    forall m, dispatched (elapse m w2) = dispatched w ++ ["home"].
Proof.
  destruct w as [st ht slt dir vt rep wt dg scr clk nxt pend evs cons].
  cbn. intros -> -> -> Hn.
  do 2 eexists. split; [crunch; reflexivity|].
  erewrite elapse_before by side.
  split; [side|]. split; [crunch; reflexivity|]. split; [side|].
  split; [side|].
  intros m. rewrite elapse_quiet by side. side.
Qed.

(** C6. In base: a volume-down press and, before [REPEAT_DELAY] has passed,
    a volume-down release fire exactly one [volumedown]; nothing is fired
    while the button is down, the event is fired when the release is
    processed, and the machine is back in base. *)
Theorem volume_tap w n :
  state w = Some baseState -> pending w = [] -> n < REPEAT_DELAY ->
  exists w1 w2,
    onMozChromeEvent "volume-down-button-press" w = Some w1 /\
    dispatched w1 = dispatched w /\
    dispatched (elapse n w1) = dispatched w /\
    onMozChromeEvent "volume-down-button-release" (elapse n w1) = Some w2 /\
    dispatched w2 = dispatched w ++ ["volumedown"] /\
    state w2 = Some baseState /\
    forall m, dispatched (elapse m w2) = dispatched w ++ ["volumedown"].
Proof.
  destruct w as [st ht slt dir vt rep wt dg scr clk nxt pend evs cons].
  cbn. intros -> -> Hn.
  do 2 eexists. split; [crunch; reflexivity|]. split; [side|].
  erewrite elapse_before by side.
  split; [side|]. split; [crunch; reflexivity|]. split; [side|].
  split; [side|].
  intros m. rewrite elapse_quiet by side. side.
Qed.

(** In base with nothing pending, time and button releases change nothing
    but the clock. *)
Lemma base_releases_silent w l :
  state w = Some baseState -> pending w = [] ->
  Forall (fun i => exists ms, i = Elapse ms \/
                   i = MozChromeEvent "home-button-release" \/
                   i = MozChromeEvent "sleep-button-release") l ->
  exists w', run l w = Some w' /\ state w' = Some baseState /\
             pending w' = [] /\ dispatched w' = dispatched w.
Proof.
  intros Hs Hp Hl. revert w Hs Hp.
  induction Hl as [|i l (ms & Hi) _ IH]; intros w Hs Hp.
  - exists w. now repeat split.
  - assert (exists w1, step i w = Some w1 /\ state w1 = Some baseState /\
                       pending w1 = [] /\ dispatched w1 = dispatched w)
      as (w1 & Hstep & Hs1 & Hp1 & Hd1).
    { destruct Hi as [->|[->| ->]].
      - exists (with_now (now w + ms) w). cbn [step].
        rewrite elapse_quiet by assumption. now repeat split.
      - exists w. cbn. unfold onMozChromeEvent; cbn. rewrite Hs. now repeat split.
      - exists w. cbn. unfold onMozChromeEvent; cbn. rewrite Hs. now repeat split. }
    destruct (IH w1 Hs1 Hp1) as (w2 & Hr & Hs2 & Hp2 & Hd2).
    exists w2. cbn [run]. rewrite Hstep. repeat split; congruence.
Qed.

(** C8, as the code has it.  In base: a home press and then, before any
    release and before the hold timer of the home press fires, a sleep
    press fire exactly one [home+sleep] (after the [wake] of the home press
    when the display was off) and neither [home] nor [sleep]; the machine is
    back in base, and the releases of the two buttons, in any order and at
    any later time, fire nothing. *)
Theorem home_sleep_combo w n :
  state w = Some baseState -> pending w = [] -> n < HOLD_INTERVAL ->
  exists w1 w2,
    onMozChromeEvent "home-button-press" w = Some w1 /\
    onMozChromeEvent "sleep-button-press" (elapse n w1) = Some w2 /\
    dispatched w2 =
      dispatched w ++ (if screenEnabled w then [] else ["wake"])
                   ++ ["home+sleep"] /\
    state w2 = Some baseState /\
    forall l,
      Forall (fun i => exists ms, i = Elapse ms \/
                       i = MozChromeEvent "home-button-release" \/
                       i = MozChromeEvent "sleep-button-release") l ->
      exists w3, run l w2 = Some w3 /\ dispatched w3 = dispatched w2 /\
                 state w3 = Some baseState.
Proof.
  destruct w as [st ht slt dir vt rep wt dg scr clk nxt pend evs cons].
  cbn. intros -> -> Hn.
  destruct scr.
  - do 2 eexists. split; [crunch; reflexivity|].
    erewrite elapse_before by side.
    split; [crunch; reflexivity|]. split; [side|]. split; [side|].
    intros l Hl.
    match goal with
    | |- exists w3, run l ?W = _ /\ _ =>
        destruct (base_releases_silent W l) as (w3 & Hr & Hs & _ & Hd);
        [side|side|exact Hl|]
    end.
    exists w3. now repeat split.
  - do 2 eexists. split; [crunch; reflexivity|].
    erewrite elapse_before by side.
    split; [crunch; reflexivity|]. split; [crunch; now rewrite <- app_assoc|].
    split; [side|].
    intros l Hl.
    match goal with
    | |- exists w3, run l ?W = _ /\ _ =>
        destruct (base_releases_silent W l) as (w3 & Hr & Hs & _ & Hd);
        [side|side|exact Hl|]
    end.
    exists w3. now repeat split.
Qed.

(** C8, as the claim has it, fails once the home press has been held for
    [HOLD_INTERVAL]: the hold timer has fired [holdhome] and put the machine
    back in base, so the sleep press, still before any release, starts a
    sleep gesture.  No [home+sleep] is fired, the machine is in the sleep
    state, and the sleep release then fires [sleep]. *)
Lemma late_sleep_press_is_no_combo :
  (exists w2 w4,
     run [MozChromeEvent "home-button-press"; Elapse HOLD_INTERVAL;
          MozChromeEvent "sleep-button-press"] (loaded true 0 1) = Some w2 /\
     dispatched w2 = ["holdhome"] /\
     state w2 = Some sleepState /\
     run [MozChromeEvent "sleep-button-release";
          MozChromeEvent "home-button-release"] w2 = Some w4 /\
     dispatched w4 = ["holdhome"; "sleep"] /\
     state w4 = Some baseState) /\
  ~ combo_whenever HOLD_INTERVAL (loaded true 0 1).
Proof.
  split.
  - do 2 eexists. split; [vm_compute; reflexivity|].
    split; [reflexivity|]. split; [reflexivity|].
    split; [vm_compute; reflexivity|]. split; reflexivity.
  - intros (w1 & w2 & H1 & H2 & _ & Hs).
    vm_compute in H1. injection H1 as <-.
    vm_compute in H2. injection H2 as <-.
    discriminate Hs.
Qed.

(** While volume-up is held, the repeat timer fires [volumeup], sets the
    flag and arms the next repeat [REPEAT_INTERVAL] later. *)
Lemma repeat_fires w d :
  held_up w d ->
  held_up (elapse (d - now w) w) (d + REPEAT_INTERVAL) /\
  now (elapse (d - now w) w) = d /\
  dispatched (elapse (d - now w) w) = dispatched w ++ ["volumeup"] /\
  volumeState_repeating (elapse (d - now w) w) = true.
Proof.
  intros (Hs & Hdir & Hlt & h & Hp & Ht).
  rewrite (elapse_until _ w _ Hp) by (cbn; lia).
  cbn. unfold volumeState_repeat. cbn. rewrite Hdir. cbn.
  unfold held_up. cbn. unfold REPEAT_INTERVAL.
  repeat split; try assumption; try lia. now eexists.
Qed.

Lemma repeat_phase k : forall w d,
  held_up w d ->
  held_up (elapse (d - now w + k * REPEAT_INTERVAL) w)
          (d + S k * REPEAT_INTERVAL) /\
  now (elapse (d - now w + k * REPEAT_INTERVAL) w) = d + k * REPEAT_INTERVAL /\
  dispatched (elapse (d - now w + k * REPEAT_INTERVAL) w) =
    dispatched w ++ repeat "volumeup" (S k) /\
  volumeState_repeating (elapse (d - now w + k * REPEAT_INTERVAL) w) = true.
Proof.
  induction k as [|k IH]; intros w d H.
  - rewrite !Nat.add_0_r.
    replace (d + 1 * REPEAT_INTERVAL) with (d + REPEAT_INTERVAL) by lia.
    now apply repeat_fires.
  - replace (d - now w + S k * REPEAT_INTERVAL)
      with ((d - now w + k * REPEAT_INTERVAL) + REPEAT_INTERVAL) by lia.
    rewrite elapse_add.
    destruct (IH w d H) as (Hheld & Hnow & Hev & _).
    set (w1 := elapse (d - now w + k * REPEAT_INTERVAL) w) in *.
    destruct (repeat_fires w1 _ Hheld) as (Hheld' & Hnow' & Hev' & Hrep').
    replace (d + S k * REPEAT_INTERVAL - now w1) with REPEAT_INTERVAL in *
      by (rewrite Hnow; lia).
    split; [|split; [|split]].
    + replace (d + S (S k) * REPEAT_INTERVAL)
        with (d + S k * REPEAT_INTERVAL + REPEAT_INTERVAL) by lia.
      exact Hheld'.
    + rewrite Hnow'. lia.
    + rewrite Hev', Hev, <- app_assoc. f_equal.
      change (repeat "volumeup" (S (S k)))
        with ("volumeup" :: repeat "volumeup" (S k)).
      now rewrite repeat_cons.
    + exact Hrep'.
Qed.

(** A matching release after the autorepeat has begun fires nothing. *)
Lemma release_after_repeat w d :
  held_up w d -> volumeState_repeating w = true ->
  exists w', onMozChromeEvent "volume-up-button-release" w = Some w' /\
             dispatched w' = dispatched w /\ state w' = Some baseState /\
             pending w' = [].
Proof.
  intros (Hs & Hdir & Hlt & h & Hp & Ht) Hrep.
  eexists. unfold onMozChromeEvent. cbn. rewrite Hs. cbn.
  unfold volumeState_process. cbn. rewrite Hdir, Hrep. cbn.
  split; [reflexivity|]. unfold setState. rewrite Hs. cbn.
  unfold volumeState_exit. rewrite Ht. cbn. rewrite Hp.
  now rewrite remove_timer_single.
Qed.

(** The whole hold, from a world in which volume-up has just gone down. *)
Lemma autorepeat_from w1 clk :
  held_up w1 (clk + REPEAT_DELAY) -> now w1 = clk ->
  forall k r, r < REPEAT_INTERVAL ->
    held_up (elapse (REPEAT_DELAY + k * REPEAT_INTERVAL + r) w1)
            (clk + REPEAT_DELAY + S k * REPEAT_INTERVAL) /\
    dispatched (elapse (REPEAT_DELAY + k * REPEAT_INTERVAL + r) w1) =
      dispatched w1 ++ repeat "volumeup" (S k) /\
    volumeState_repeating
      (elapse (REPEAT_DELAY + k * REPEAT_INTERVAL + r) w1) = true.
Proof.
  intros Hheld Hnow k r Hr.
  destruct (repeat_phase k w1 _ Hheld) as (Hh & Hn & Hd & Hrep).
  replace (clk + REPEAT_DELAY - now w1) with REPEAT_DELAY in Hh, Hn, Hd, Hrep
    by (rewrite Hnow; lia).
  rewrite elapse_add.
  remember (elapse (REPEAT_DELAY + k * REPEAT_INTERVAL) w1) as w2 eqn:E.
  clear E.
  destruct Hh as (Hs2 & Hdir2 & Hlt2 & h2 & Hp2 & Ht2).
  rewrite (elapse_before r w2 _ Hp2) by (cbn [due]; lia).
  unfold held_up. cbn [state volumeState_direction now pending
                       volumeState_timer dispatched volumeState_repeating
                       with_now].
  repeat split; try assumption; [lia|eexists; split; eassumption].
Qed.

(** C5. In base: after a volume-up press nothing is fired before
    [REPEAT_DELAY]; the first [volumeup] is fired when that timer fires and
    one more at each [REPEAT_INTERVAL] after it, so that
    [REPEAT_DELAY + k * REPEAT_INTERVAL] (and up to the next tick) into the
    hold exactly [k + 1] have been fired, four for [k = 3]; the flag
    [repeating] is then set, and the matching release fires nothing more and
    returns to base. *)
Theorem volume_autorepeat w :
  state w = Some baseState -> pending w = [] ->
  exists w1,
    onMozChromeEvent "volume-up-button-press" w = Some w1 /\
    (forall n, n < REPEAT_DELAY ->
       dispatched (elapse n w1) = dispatched w /\
       volumeState_repeating (elapse n w1) = false) /\
    (forall k r, r < REPEAT_INTERVAL ->
       let w2 := elapse (REPEAT_DELAY + k * REPEAT_INTERVAL + r) w1 in
       dispatched w2 = dispatched w ++ repeat "volumeup" (S k) /\
       volumeState_repeating w2 = true /\
       state w2 = Some volumeState /\
       exists w3,
         onMozChromeEvent "volume-up-button-release" w2 = Some w3 /\
         dispatched w3 = dispatched w2 /\
         state w3 = Some baseState /\
         forall m, dispatched (elapse m w3) = dispatched w2) /\
    dispatched (elapse (REPEAT_DELAY + 3 * REPEAT_INTERVAL) w1) =
      dispatched w ++ ["volumeup"; "volumeup"; "volumeup"; "volumeup"].
Proof.
  intros Hs Hp.
  exists (setState volumeState (Some "volume-up-button-press") w).
  assert (Hheld : held_up (setState volumeState
                             (Some "volume-up-button-press") w)
                          (now w + REPEAT_DELAY) /\
          now (setState volumeState (Some "volume-up-button-press") w)
            = now w /\
          dispatched (setState volumeState (Some "volume-up-button-press") w)
            = dispatched w /\
          volumeState_repeating
            (setState volumeState (Some "volume-up-button-press") w) = false).
  { unfold setState. rewrite Hs. unfold held_up. cbn. rewrite Hp.
    unfold REPEAT_DELAY. repeat split; [lia|].
    eexists; split; reflexivity. }
  destruct Hheld as (Hheld & Hnow & Hev & Hrep).
  split.
  { unfold onMozChromeEvent.
    change (is_button_type "volume-up-button-press") with true.
    cbv iota. rewrite Hs. reflexivity. }
  remember (setState volumeState (Some "volume-up-button-press") w) as w1
    eqn:E. clear E.
  assert (Hphase := autorepeat_from w1 (now w) Hheld Hnow).
  split; [|split].
  - intros n Hn. destruct Hheld as (_ & _ & _ & h & Hp1 & _).
    rewrite (elapse_before n w1 _ Hp1) by (cbn [due]; lia).
    now split.
  - intros k r Hr. destruct (Hphase k r Hr) as (Hh & Hd & Hr2). cbv zeta.
    rewrite Hev in Hd.
    split; [assumption|]. split; [assumption|]. split; [apply Hh|].
    destruct (release_after_repeat _ _ Hh Hr2) as (w3 & He & Hd3 & Hs3 & Hp3).
    exists w3. repeat split; try assumption.
    intros m. now rewrite elapse_quiet by assumption.
  - destruct (Hphase 3 0) as (_ & Hd & _); [unfold REPEAT_INTERVAL; lia|].
    rewrite Nat.add_0_r, Hev in Hd. exact Hd.
Qed.

(** C9. A sleep press in the volume state fires nothing, cancels the repeat
    timer of the volume state, and enters the sleep state, whose [enter] arms
    a new timer due [HOLD_INTERVAL] later.  Holding on, nothing is fired
    before that timer and exactly [holdsleep] when it fires: no [volumeup]
    or [volumedown] comes from the abandoned repeat timer. *)
Theorem volume_to_sleep w :
  well_formed w -> state w = Some volumeState ->
  exists w1,
    onMozChromeEvent "sleep-button-press" w = Some w1 /\
    state w1 = Some sleepState /\
    dispatched w1 = dispatched w /\
    volumeState_timer w1 = None /\
    (forall t, In t (pending w) -> ~ In (handle t) (map handle (pending w1))) /\
    pending w1 =
      [mkTimer (next_handle w) (now w + HOLD_INTERVAL) holdsleep_cb] /\
    sleepState_timer w1 = Some (next_handle w) /\
    (forall n, n < HOLD_INTERVAL ->
       dispatched (elapse n w1) = dispatched w /\
       state (elapse n w1) = Some sleepState) /\
    (forall n, HOLD_INTERVAL <= n ->
       dispatched (elapse n w1) = dispatched w ++ ["holdsleep"] /\
       state (elapse n w1) = Some baseState).
Proof.
  destruct w as [st ht slt dir vt rep wt dg scr clk nxt pend evs cons].
  unfold well_formed. cbn. intros H Hs. subst st.
  destruct H as (h & d & -> & -> & Hlt & _).
  eexists. split; [crunch; reflexivity|].
  split; [side|]. split; [side|]. split; [side|]. split.
  { intros t [<-|[]]. crunch. intros [Heq|[]]. subst nxt.
    now apply Pos.lt_irrefl in Hlt. }
  split; [side|]. split; [side|]. split.
  - intros n Hn. erewrite elapse_before by side. split; side.
  - intros n Hn. unfold HOLD_INTERVAL in Hn.
    replace n with (1500 + (n - 1500)) by lia. rewrite elapse_add.
    erewrite (elapse_until 1500) by side.
    rewrite elapse_quiet by side. split; side.
Qed.

Ltac crunch_in H :=
  do 3 (norm_in H;
        rewrite ?app_nil_l, ?remove_timer_single, ?remove_timer_nil,
                ?has_handle_single in H).

Ltac entry_case Hstep Hs1 :=
  crunch_in Hstep; injection Hstep as <-; crunch_in Hs1; try discriminate;
  (split; [auto|]); (split; [side|]); (split; [side|]); (split; [side|]);
  intros n Hn; (erewrite elapse_before by side); (split; [side|]);
  (eexists; split; [crunch; reflexivity|split; side]).

(** A signal that enters the volume state is a volume press, and the state
    is entered afresh. *)
Lemma press_enters_volume w type w1 :
  well_formed w -> state w <> Some volumeState ->
  onMozChromeEvent type w = Some w1 -> state w1 = Some volumeState ->
  (type = "volume-up-button-press" \/ type = "volume-down-button-press") /\
  volumeState_direction w1 = Some type /\
  volumeState_repeating w1 = false /\
  dispatched w1 = dispatched w /\
  forall n, n < REPEAT_DELAY ->
    dispatched (elapse n w1) = dispatched w /\
    exists w2,
      onMozChromeEvent (release_of type) (elapse n w1) = Some w2 /\
      dispatched w2 = dispatched w ++ [event_of type] /\
      state w2 = Some baseState.
Proof.
  intros H Hnv Hstep Hs1.
  destruct (is_button_type type) eqn:E.
  2:{ unfold onMozChromeEvent in Hstep. rewrite E in Hstep.
      injection Hstep as <-. contradiction. }
  apply is_button_type_In in E.
  destruct w as [st ht slt dir vt rep wt dg scr clk nxt pend evs cons].
  unfold well_formed in H; cbn in H, Hnv |- *.
  destruct st as [[]|]; [| | |congruence| |contradiction].
  - subst pend. destruct scr; each_signal E type; entry_case Hstep Hs1.
  - destruct H as (h & d & -> & -> & Hlt).
    each_signal E type; entry_case Hstep Hs1.
  - destruct H as (h & d & -> & -> & Hlt).
    each_signal E type; entry_case Hstep Hs1.
  - destruct H as (h & d & ty & -> & -> & Hlt & [[-> ->] | [-> ->]]);
      each_signal E type; entry_case Hstep Hs1.
Qed.

(** C10. Whatever state the volume state is entered from, and whatever the
    fields of [volumeState] held before (for one, [repeating] still set by an
    earlier autorepeat), the step that enters it is a volume press,
    [direction] is that press and [repeating] is false afterwards; a matching
    release before [REPEAT_DELAY] then fires the one event of that
    direction. *)
Theorem volume_entry_resets w i w1 :
  well_formed w -> state w <> Some volumeState ->
  step i w = Some w1 -> state w1 = Some volumeState ->
  exists type,
    i = MozChromeEvent type /\
    (type = "volume-up-button-press" \/ type = "volume-down-button-press") /\
    volumeState_direction w1 = Some type /\
    volumeState_repeating w1 = false /\
    dispatched w1 = dispatched w /\
    forall n, n < REPEAT_DELAY ->
      dispatched (elapse n w1) = dispatched w /\
      exists w2,
        onMozChromeEvent (release_of type) (elapse n w1) = Some w2 /\
        dispatched w2 = dispatched w ++ [event_of type] /\
        state w2 = Some baseState.
Proof.
  intros H Hnv Hstep Hs1. destruct i as [type|ms|b]; cbn in Hstep.
  - exists type. split; [reflexivity|].
    now apply (press_enters_volume w type w1).
  - injection Hstep as <-.
    destruct (elapse_invariant ms w H) as (_ & _ & [Hs|Hs]); congruence.
  - injection Hstep as <-. cbn in Hs1. contradiction.
Qed.

(** ** The volume state and signals outside its rows *)

(** C1, as the code has it.  In the volume state a release of the other
    direction leaves the [switch] through [break]: the signal is logged, the
    repeat timer is cancelled and the machine is forced to base; nothing is
    fired.  Every signal other than home press, sleep press and the two
    volume releases is ignored: the world does not change at all. *)
Theorem volume_other_signals w type :
  well_formed w -> state w = Some volumeState ->
  ((type = "volume-up-button-release" /\
    volumeState_direction w = Some "volume-down-button-press") \/
   (type = "volume-down-button-release" /\
    volumeState_direction w = Some "volume-up-button-press") ->
   exists w', onMozChromeEvent type w = Some w' /\
              dispatched w' = dispatched w /\
              console w' = console w ++ [type] /\
              state w' = Some baseState /\
              pending w' = []) /\
  (~ In type [ "home-button-press"; "sleep-button-press";
               "volume-up-button-release"; "volume-down-button-release" ] ->
   onMozChromeEvent type w = Some w).
Proof.
  intros H Hs. split.
  - destruct w as [st ht slt dir vt rep wt dg scr clk nxt pend evs cons].
    unfold well_formed in H. cbn in H, Hs |- *. subst st.
    destruct H as (h & d & -> & -> & Hlt & _).
    intros [[-> ->] | [-> ->]];
      (eexists; split; [crunch; reflexivity|repeat split; side]).
  - intros Hnot. unfold onMozChromeEvent.
    destruct (is_button_type type); [|reflexivity].
    rewrite Hs. cbn [process]. unfold volumeState_process.
    assert (He : forall s, In s [ "home-button-press"; "sleep-button-press";
                                  "volume-up-button-release";
                                  "volume-down-button-release" ] ->
                           (type =? s) = false).
    { intros s Hin. apply String.eqb_neq. intros ->. contradiction. }
    rewrite !He by (cbn; auto). reflexivity.
Qed.

(** C1, as the claim has it, fails: with volume-down held, a volume-up
    release is not ignored, the machine leaves the volume state. *)
Lemma opposite_release_not_ignored :
  run [MozChromeEvent "volume-down-button-press"] (loaded true 0 1)
    = Some volume_down_held /\
  state volume_down_held = Some volumeState /\
  volumeState_direction volume_down_held = Some "volume-down-button-press" /\
  ~ ignored_in_volume "volume-up-button-release" volume_down_held.
Proof.
  split; [reflexivity|]. split; [reflexivity|]. split; [reflexivity|].
  intros (w' & Hstep & _ & Hs).
  vm_compute in Hstep. injection Hstep as <-. discriminate Hs.
Qed.

(** ** Unexpected signals *)

Ltac table_case :=
  eexists; split; [crunch; reflexivity|];
  (split; [ intros _ Ht; crunch_in Ht; try discriminate Ht;
            repeat split; side
          | intros Ht; crunch_in Ht; try discriminate Ht; side ]).

(** C3. In every well-formed world the listener returns (nothing throws).
    A button signal that the table of the current state does not define is
    logged, the machine is forced to base, no timer is left pending and
    nothing is fired.  A signal the table defines is not logged. *)
Theorem unexpected_signal_recovers w type :
  well_formed w ->
  exists w',
    onMozChromeEvent type w = Some w' /\
    (is_button_type type = true -> table_defines w type = false ->
       console w' = console w ++ [type] /\
       state w' = Some baseState /\
       pending w' = [] /\
       dispatched w' = dispatched w) /\
    (table_defines w type = true -> console w' = console w).
Proof.
  intros H. destruct (is_button_type type) eqn:E.
  2:{ exists w. unfold onMozChromeEvent. rewrite E.
      split; [reflexivity|]. split; [discriminate|reflexivity]. }
  apply is_button_type_In in E.
  destruct w as [st ht slt dir vt rep wt dg scr clk nxt pend evs cons].
  unfold well_formed in H; cbn in H.
  destruct st as [[]|]; [| | | | |contradiction].
  - subst pend. destruct scr;
      each_signal E type; table_case.
  - destruct H as (h & d & -> & -> & Hlt).
      each_signal E type; table_case.
  - destruct H as (h & d & -> & -> & Hlt).
      each_signal E type; table_case.
  - destruct H as (h & d & -> & -> & Hlt & [-> | ->]); destruct rep;
      each_signal E type; table_case.
  - destruct H as (h & d & ty & -> & -> & Hlt & [[-> ->] | [-> ->]]);
      each_signal E type; table_case.
Qed.

(** ** Timers and exits *)

(** C2. In every world the module reaches from its load, whatever the
    inputs: each pending timer was armed by the current state, so a timer
    that fires is never one of a state that has been left; at most one timer
    is pending; and when a step leaves the state, the timers that were pending
    before it are gone from the scheduler for good, so their callbacks are
    never run. *)
Theorem timers_cancelled_on_exit screen clock next l w :
  run l (loaded screen clock next) = Some w ->
  (forall t, In t (pending w) -> state w = Some (owner (callback t))) /\
  length (pending w) <= 1 /\
  (forall i w1, step i w = Some w1 -> state w1 <> state w ->
     forall t, In t (pending w) ->
     forall l' w2, run l' w1 = Some w2 ->
       ~ In (handle t) (map handle (pending w2))).
Proof.
  intros Hrun. pose proof (reachable_well_formed _ _ _ _ _ Hrun) as Hwf.
  split; [|split].
  - intros t Ht. now apply well_formed_owner.
  - now apply well_formed_one_timer.
  - intros i w1 Hstep Hchg t Ht l' w2 Hrun'.
    destruct (step_invariant i w Hwf) as (w1' & Hstep' & Hwf1 & Hf1).
    assert (w1' = w1) by congruence. subst w1'.
    assert (Hret : retired (handle t) w1).
    { split.
      - eapply Pos.lt_le_trans;
          [exact (well_formed_fresh w t Hwf Ht)|apply Hf1].
      - intros Hin. apply in_map_iff in Hin as (t' & Hh & Ht').
        destruct Hf1 as [_ Hp]. destruct (Hp t' Ht') as [[Heq _]|Hnew].
        + contradiction.
        + pose proof (well_formed_fresh w t Hwf Ht) as Hlt.
          rewrite <- Hh in Hlt. apply Pos.lt_nle in Hlt. contradiction. }
    destruct (run_invariant l' w1 Hwf1) as (w2' & Hrun2 & _ & Hf2).
    assert (w2' = w2) by congruence. subst w2'.
    exact (proj2 (retired_follows _ _ _ Hret Hf2)).
Qed.

(** ** The theorems at concrete worlds

    Each theorem above is applied to a world obtained by running the module
    from its load, which also shows that its hypotheses can be met. *)

Lemma volume_other_signals_witness :
  exists w',
    onMozChromeEvent "volume-up-button-release" volume_down_held = Some w' /\
    state w' = Some baseState /\
    console w' = ["volume-up-button-release"].
Proof.
  assert (Hwf : well_formed volume_down_held).
  { vm_compute. exists 1%positive, 700. repeat split. now right. }
  destruct (proj1 (volume_other_signals volume_down_held
                     "volume-up-button-release" Hwf eq_refl)
                  (or_introl (conj eq_refl eq_refl)))
    as (w' & H1 & _ & H2 & H3 & _).
  exists w'. split; [exact H1|]. split; [exact H3|exact H2].
Defined.

Lemma timers_cancelled_on_exit_witness :
  length (pending home_held) <= 1.
Proof.
  refine (proj1 (proj2 (timers_cancelled_on_exit true 0 1
                          [MozChromeEvent "home-button-press"] home_held _))).
  vm_compute. reflexivity.
Defined.

Lemma unexpected_signal_recovers_witness :
  exists w',
    onMozChromeEvent "home-button-press" home_held = Some w' /\
    console w' = ["home-button-press"] /\
    state w' = Some baseState /\
    pending w' = [].
Proof.
  assert (Hwf : well_formed home_held).
  { vm_compute. exists 1%positive, 1500. repeat split. }
  destruct (unexpected_signal_recovers home_held "home-button-press" Hwf)
    as (w' & H1 & H2 & _).
  destruct (H2 eq_refl eq_refl) as (Hc & Hs & Hp & _).
  exists w'. split; [exact H1|]. split; [exact Hc|]. split; assumption.
Defined.

Lemma wake_then_hold_witness :
  exists w1,
    onMozChromeEvent "sleep-button-press" (loaded false 0 1) = Some w1 /\
    dispatched (elapse 1500 w1) = ["wake"; "holdsleep"].
Proof.
  destruct (wake_then_hold (loaded false 0 1) eq_refl eq_refl eq_refl)
    as (w1 & H1 & _ & _ & _ & Hhold & _).
  exists w1. split; [exact H1|]. exact (proj1 (Hhold 1500 (le_n 1500))).
Defined.

Lemma volume_autorepeat_witness :
  exists w1,
    onMozChromeEvent "volume-up-button-press" (loaded true 0 1) = Some w1 /\
    dispatched (elapse (REPEAT_DELAY + 3 * REPEAT_INTERVAL) w1) =
      ["volumeup"; "volumeup"; "volumeup"; "volumeup"].
Proof.
  destruct (volume_autorepeat (loaded true 0 1) eq_refl eq_refl)
    as (w1 & H1 & _ & _ & H4).
  exists w1. split; [exact H1|exact H4].
Defined.

Lemma volume_tap_witness :
  exists w1 w2,
    onMozChromeEvent "volume-down-button-press" (loaded true 0 1) = Some w1 /\
    onMozChromeEvent "volume-down-button-release" (elapse 100 w1) = Some w2 /\
    dispatched w2 = ["volumedown"].
Proof.
  assert (Hn : 100 < REPEAT_DELAY) by (unfold REPEAT_DELAY; lia).
  destruct (volume_tap (loaded true 0 1) 100 eq_refl eq_refl Hn)
    as (w1 & w2 & H1 & _ & _ & H2 & H3 & _).
  exists w1, w2. split; [exact H1|]. split; [exact H2|exact H3].
Defined.

Lemma home_tap_witness :
  exists w1 w2,
    onMozChromeEvent "home-button-press" (loaded true 0 1) = Some w1 /\
    onMozChromeEvent "home-button-release" (elapse 100 w1) = Some w2 /\
    dispatched w2 = ["home"].
Proof.
  assert (Hn : 100 < HOLD_INTERVAL) by (unfold HOLD_INTERVAL; lia).
  destruct (home_tap (loaded true 0 1) 100 eq_refl eq_refl eq_refl Hn)
    as (w1 & w2 & H1 & _ & H2 & H3 & _).
  exists w1, w2. split; [exact H1|]. split; [exact H2|exact H3].
Defined.

Lemma home_sleep_combo_witness :
  exists w1 w2,
    onMozChromeEvent "home-button-press" (loaded true 0 1) = Some w1 /\
    onMozChromeEvent "sleep-button-press" (elapse 100 w1) = Some w2 /\
    dispatched w2 = ["home+sleep"].
Proof.
  assert (Hn : 100 < HOLD_INTERVAL) by (unfold HOLD_INTERVAL; lia).
  destruct (home_sleep_combo (loaded true 0 1) 100 eq_refl eq_refl Hn)
    as (w1 & w2 & H1 & H2 & H3 & _).
  exists w1, w2. split; [exact H1|]. split; [exact H2|exact H3].
Defined.

Lemma volume_to_sleep_witness :
  exists w1,
    onMozChromeEvent "sleep-button-press" volume_down_held = Some w1 /\
    pending w1 = [mkTimer 2 HOLD_INTERVAL holdsleep_cb] /\
    dispatched (elapse HOLD_INTERVAL w1) = ["holdsleep"].
Proof.
  assert (Hwf : well_formed volume_down_held).
  { vm_compute. exists 1%positive, 700. repeat split. now right. }
  destruct (volume_to_sleep volume_down_held Hwf eq_refl)
    as (w1 & H1 & _ & _ & _ & _ & Hp & _ & _ & Hhold).
  exists w1. split; [exact H1|]. split; [exact Hp|].
  exact (proj1 (Hhold HOLD_INTERVAL (le_n HOLD_INTERVAL))).
Defined.

Lemma volume_entry_resets_witness :
  run [MozChromeEvent "volume-up-button-press"; Elapse 1000;
       MozChromeEvent "volume-up-button-release"] (loaded true 0 1)
    = Some after_autorepeat /\
  volumeState_repeating after_autorepeat = true /\
  volumeState_repeating
    (setState volumeState (Some "volume-down-button-press") after_autorepeat)
    = false /\
  exists w2,
    onMozChromeEvent "volume-down-button-release"
      (elapse 100
         (setState volumeState (Some "volume-down-button-press")
            after_autorepeat)) = Some w2 /\
    dispatched w2 = dispatched after_autorepeat ++ ["volumedown"].
Proof.
  split; [vm_compute; reflexivity|]. split; [vm_compute; reflexivity|].
  assert (Hwf : well_formed after_autorepeat) by (vm_compute; reflexivity).
  assert (Hnv : state after_autorepeat <> Some volumeState)
    by (vm_compute; discriminate).
  assert (Hstep : onMozChromeEvent "volume-down-button-press" after_autorepeat
                  = Some (setState volumeState
                            (Some "volume-down-button-press")
                            after_autorepeat))
    by (vm_compute; reflexivity).
  assert (Hs1 : state (setState volumeState (Some "volume-down-button-press")
                         after_autorepeat) = Some volumeState)
    by (vm_compute; reflexivity).
  assert (Hn : 100 < REPEAT_DELAY) by (unfold REPEAT_DELAY; lia).
  destruct (volume_entry_resets after_autorepeat
              (MozChromeEvent "volume-down-button-press") _ Hwf Hnv Hstep Hs1)
    as (type & Hi & _ & _ & Hrep & _ & Htap).
  injection Hi as <-.
  split; [exact Hrep|].
  destruct (Htap 100 Hn) as (_ & w2 & H2 & H3 & _).
  exists w2. split; [exact H2|exact H3].
Defined.

(** ** Further gestures of one button *)

(** X1. Display on, in base: a home press held for [HOLD_INTERVAL] or longer
    fires nothing before the threshold and exactly [holdhome] at it; the
    machine is then in base, so the release that follows is ignored and no
    [home] is fired. *)
Theorem home_hold w n :
  state w = Some baseState -> pending w = [] -> screenEnabled w = true ->
  HOLD_INTERVAL <= n ->
  exists w1 w2,
    onMozChromeEvent "home-button-press" w = Some w1 /\
    (forall m, m < HOLD_INTERVAL -> dispatched (elapse m w1) = dispatched w) /\
    dispatched (elapse n w1) = dispatched w ++ ["holdhome"] /\
    state (elapse n w1) = Some baseState /\
    onMozChromeEvent "home-button-release" (elapse n w1) = Some w2 /\
    dispatched w2 = dispatched w ++ ["holdhome"] /\
    state w2 = Some baseState /\
    pending w2 = [].
Proof.
  destruct w as [st ht slt dir vt rep wt dg scr clk nxt pend evs cons].
  cbn. intros -> -> -> Hn. unfold HOLD_INTERVAL in Hn.
  replace n with (1500 + (n - 1500)) by lia.
  generalize (n - 1500). clear n Hn. intros k.
  do 2 eexists. split; [crunch; reflexivity|]. split.
  { intros m Hm. erewrite elapse_before by side. side. }
  rewrite elapse_add.
  erewrite (elapse_until 1500) by side.
  rewrite elapse_quiet by side.
  split; [side|]. split; [side|]. split; [crunch; reflexivity|].
  split; [side|]. split; side.
Qed.

(** X2. Display on, in base: a sleep press and, before the hold timer fires,
    a sleep release fire exactly [sleep], at the release; the machine is back
    in base and no [holdsleep] follows. *)
Theorem sleep_tap w n :
  state w = Some baseState -> pending w = [] -> screenEnabled w = true ->
  n < HOLD_INTERVAL ->
  exists w1 w2,
    onMozChromeEvent "sleep-button-press" w = Some w1 /\
    state w1 = Some sleepState /\
    dispatched (elapse n w1) = dispatched w /\
    onMozChromeEvent "sleep-button-release" (elapse n w1) = Some w2 /\
    dispatched w2 = dispatched w ++ ["sleep"] /\
    state w2 = Some baseState /\
    forall m, dispatched (elapse m w2) = dispatched w ++ ["sleep"].
Proof.
  destruct w as [st ht slt dir vt rep wt dg scr clk nxt pend evs cons].
  cbn. intros -> -> -> Hn.
  do 2 eexists. split; [crunch; reflexivity|]. split; [side|].
  erewrite elapse_before by side.
  split; [side|]. split; [crunch; reflexivity|]. split; [side|].
  split; [side|].
  intros m. rewrite elapse_quiet by side. side.
Qed.

(** X3. Display on, in base: a sleep press held for [HOLD_INTERVAL] or
    longer fires exactly [holdsleep], at the threshold; the release that
    follows is ignored and no [sleep] is fired. *)
Theorem sleep_hold w n :
  state w = Some baseState -> pending w = [] -> screenEnabled w = true ->
  HOLD_INTERVAL <= n ->
  exists w1 w2,
    onMozChromeEvent "sleep-button-press" w = Some w1 /\
    (forall m, m < HOLD_INTERVAL -> dispatched (elapse m w1) = dispatched w) /\
    dispatched (elapse n w1) = dispatched w ++ ["holdsleep"] /\
    state (elapse n w1) = Some baseState /\
    onMozChromeEvent "sleep-button-release" (elapse n w1) = Some w2 /\
    dispatched w2 = dispatched w ++ ["holdsleep"] /\
    state w2 = Some baseState /\
    pending w2 = [].
Proof.
  destruct w as [st ht slt dir vt rep wt dg scr clk nxt pend evs cons].
  cbn. intros -> -> -> Hn. unfold HOLD_INTERVAL in Hn.
  replace n with (1500 + (n - 1500)) by lia.
  generalize (n - 1500). clear n Hn. intros k.
  do 2 eexists. split; [crunch; reflexivity|]. split.
  { intros m Hm. erewrite elapse_before by side. side. }
  rewrite elapse_add.
  erewrite (elapse_until 1500) by side.
  rewrite elapse_quiet by side.
  split; [side|]. split; [side|]. split; [crunch; reflexivity|].
  split; [side|]. split; side.
Qed.

(** X4. Display off, in base: a home press fires [wake] at once and enters
    the wake state standing in for home.  Held for [HOLD_INTERVAL] or longer
    it fires exactly one [holdhome] more; released earlier it fires nothing
    more, at the release or later: the press that woke the phone is not a
    tap. *)
Theorem wake_home_then_hold w :
  state w = Some baseState -> pending w = [] -> screenEnabled w = false ->
  exists w1,
    onMozChromeEvent "home-button-press" w = Some w1 /\
    dispatched w1 = dispatched w ++ ["wake"] /\
    state w1 = Some wakeState /\
    wakeState_delegateState w1 = Some homeState /\
    (forall n, HOLD_INTERVAL <= n ->
       dispatched (elapse n w1) = dispatched w ++ ["wake"; "holdhome"] /\
       state (elapse n w1) = Some baseState) /\
    (forall n, n < HOLD_INTERVAL ->
       dispatched (elapse n w1) = dispatched w ++ ["wake"] /\
       exists w2,
         onMozChromeEvent "home-button-release" (elapse n w1) = Some w2 /\
         state w2 = Some baseState /\
         forall m, dispatched (elapse m w2) = dispatched w ++ ["wake"]).
Proof.
  destruct w as [st ht slt dir vt rep wt dg scr clk nxt pend evs cons].
  cbn. intros -> -> ->.
  eexists. split; [crunch; reflexivity|].
  split; [side|]. split; [side|]. split; [side|]. split.
  - intros n Hn. unfold HOLD_INTERVAL in Hn.
    replace n with (1500 + (n - 1500)) by lia. rewrite elapse_add.
    erewrite (elapse_until 1500) by side.
    rewrite elapse_quiet by side.
    split; [|side].
    crunch. now rewrite <- app_assoc.
  - intros n Hn. unfold HOLD_INTERVAL in Hn.
    erewrite elapse_before by side.
    split; [side|].
    eexists. split; [crunch; reflexivity|]. split; [side|].
    intros m. rewrite elapse_quiet by side. side.
Qed.

(** ** Autorepeat in either direction *)

Lemma held_fires press w d :
  held press w d ->
  held press (elapse (d - now w) w) (d + REPEAT_INTERVAL) /\
  now (elapse (d - now w) w) = d /\
  dispatched (elapse (d - now w) w) = dispatched w ++ [event_of press] /\
  volumeState_repeating (elapse (d - now w) w) = true.
Proof.
  intros (Hs & Hdir & Hlt & h & Hp & Ht).
  rewrite (elapse_until _ w _ Hp) by (cbn; lia).
  cbn. unfold volumeState_repeat. cbn. rewrite Hdir. cbn.
  unfold held, event_of. unfold REPEAT_INTERVAL.
  destruct (press =? "volume-up-button-press"); cbn;
    (repeat split; try assumption; try lia; now eexists).
Qed.

Lemma held_phase press k : forall w d,
  held press w d ->
  held press (elapse (d - now w + k * REPEAT_INTERVAL) w)
       (d + S k * REPEAT_INTERVAL) /\
  now (elapse (d - now w + k * REPEAT_INTERVAL) w) = d + k * REPEAT_INTERVAL /\
  dispatched (elapse (d - now w + k * REPEAT_INTERVAL) w) =
    dispatched w ++ repeat (event_of press) (S k) /\
  volumeState_repeating (elapse (d - now w + k * REPEAT_INTERVAL) w) = true.
Proof.
  induction k as [|k IH]; intros w d H.
  - rewrite !Nat.add_0_r.
    replace (d + 1 * REPEAT_INTERVAL) with (d + REPEAT_INTERVAL) by lia.
    now apply held_fires.
  - replace (d - now w + S k * REPEAT_INTERVAL)
      with ((d - now w + k * REPEAT_INTERVAL) + REPEAT_INTERVAL) by lia.
    rewrite elapse_add.
    destruct (IH w d H) as (Hheld & Hnow & Hev & _).
    remember (elapse (d - now w + k * REPEAT_INTERVAL) w) as w1 eqn:E.
    clear E.
    destruct (held_fires press w1 _ Hheld) as (Hheld' & Hnow' & Hev' & Hrep').
    replace (d + S k * REPEAT_INTERVAL - now w1) with REPEAT_INTERVAL in *
      by (rewrite Hnow; lia).
    split; [|split; [|split]].
    + replace (d + S (S k) * REPEAT_INTERVAL)
        with (d + S k * REPEAT_INTERVAL + REPEAT_INTERVAL) by lia.
      exact Hheld'.
    + rewrite Hnow'. lia.
    + rewrite Hev', Hev, <- app_assoc. f_equal.
      change (repeat (event_of press) (S (S k)))
        with (event_of press :: repeat (event_of press) (S k)).
      now rewrite repeat_cons.
    + exact Hrep'.
Qed.

(** Nothing before the repeat timer, then one event per tick. *)
Lemma held_course press w d :
  held press w d ->
  (forall n, now w + n < d ->
     dispatched (elapse n w) = dispatched w /\
     volumeState_repeating (elapse n w) = volumeState_repeating w /\
     held press (elapse n w) d) /\
  (forall k r, r < REPEAT_INTERVAL ->
     held press (elapse (d - now w + k * REPEAT_INTERVAL + r) w)
          (d + S k * REPEAT_INTERVAL) /\
     dispatched (elapse (d - now w + k * REPEAT_INTERVAL + r) w) =
       dispatched w ++ repeat (event_of press) (S k) /\
     volumeState_repeating
       (elapse (d - now w + k * REPEAT_INTERVAL + r) w) = true).
Proof.
  intros Hheld. split.
  - intros n Hn. destruct Hheld as (Hs & Hdir & Hlt & h & Hp & Ht).
    rewrite (elapse_before n w _ Hp) by (cbn [due]; lia).
    unfold held. cbn. repeat split; try assumption. now exists h.
  - intros k r Hr.
    destruct (held_phase press k w d Hheld) as (Hh & Hn & Hd & Hrep).
    rewrite elapse_add.
    remember (elapse (d - now w + k * REPEAT_INTERVAL) w) as w2 eqn:E.
    clear E.
    destruct Hh as (Hs2 & Hdir2 & Hlt2 & h2 & Hp2 & Ht2).
    rewrite (elapse_before r w2 _ Hp2) by (cbn [due]; lia).
    unfold held. cbn [state volumeState_direction now pending
                     volumeState_timer dispatched volumeState_repeating
                     with_now].
    repeat split; try assumption; [lia|eexists; split; eassumption].
Qed.

(** The matching release of a held volume button: one event if the
    autorepeat has not begun, none if it has; base either way. *)
Lemma held_release press w d :
  press = "volume-up-button-press" \/ press = "volume-down-button-press" ->
  held press w d ->
  exists w',
    onMozChromeEvent (release_of press) w = Some w' /\
    dispatched w' =
      dispatched w ++ (if volumeState_repeating w then [] else [event_of press])
    /\ state w' = Some baseState /\ pending w' = [].
Proof.
  intros Hpress (Hs & Hdir & Hlt & h & Hp & Ht).
  assert (Hexit : forall x,
            state x = Some volumeState -> volumeState_timer x = Some h ->
            pending x = [mkTimer h d repeat_cb] ->
            state (setState baseState
                     (Some (release_of press)) x) = Some baseState /\
            pending (setState baseState (Some (release_of press)) x) = [] /\
            dispatched (setState baseState (Some (release_of press)) x)
              = dispatched x).
  { intros x Hx Htx Hpx. unfold setState. rewrite Hx. cbn.
    unfold volumeState_exit. rewrite Htx. cbn. rewrite Hpx.
    now rewrite remove_timer_single. }
  destruct Hpress as [-> | ->];
    (eexists; unfold onMozChromeEvent;
     cbn [release_of String.eqb Ascii.eqb Bool.eqb is_button_type existsb
          button_types orb];
     rewrite Hs; cbn [process]; unfold volumeState_process;
     cbn [String.eqb Ascii.eqb Bool.eqb]; rewrite Hdir;
     cbn [strict_eq String.eqb Ascii.eqb Bool.eqb];
     split; [reflexivity|]);
    destruct (volumeState_repeating w); cbn [negb];
    match goal with
    | |- context [setState baseState _ ?x] =>
        destruct (Hexit x) as (H1 & H2 & H3); try assumption
    end;
    cbn [release_of String.eqb Ascii.eqb Bool.eqb] in H1, H2, H3;
    (split; [rewrite H3; cbn; now rewrite ?app_nil_r|now split]).
Qed.

(** X9. In base: a volume press of either direction, held, fires nothing
    before [REPEAT_DELAY] and then the event of its direction once at
    [REPEAT_DELAY] and once at every [REPEAT_INTERVAL] after it, [k + 1]
    events by [REPEAT_DELAY + k * REPEAT_INTERVAL]; the machine stays in the
    volume state as long as nothing else arrives, and the matching release
    then fires nothing more and returns to base. *)
Theorem autorepeat_either_direction w press :
  state w = Some baseState -> pending w = [] ->
  press = "volume-up-button-press" \/ press = "volume-down-button-press" ->
  exists w1,
    onMozChromeEvent press w = Some w1 /\
    (forall n, n < REPEAT_DELAY -> dispatched (elapse n w1) = dispatched w) /\
    (forall k r, r < REPEAT_INTERVAL ->
       let w2 := elapse (REPEAT_DELAY + k * REPEAT_INTERVAL + r) w1 in
       dispatched w2 = dispatched w ++ repeat (event_of press) (S k) /\
       state w2 = Some volumeState /\
       exists w3,
         onMozChromeEvent (release_of press) w2 = Some w3 /\
         dispatched w3 = dispatched w2 /\
         state w3 = Some baseState).
Proof.
  intros Hs Hp Hpress.
  exists (setState volumeState (Some press) w).
  assert (Hheld : held press (setState volumeState (Some press) w)
                       (now w + REPEAT_DELAY) /\
          now (setState volumeState (Some press) w) = now w /\
          dispatched (setState volumeState (Some press) w) = dispatched w).
  { unfold setState. rewrite Hs. unfold held. cbn. rewrite Hp.
    unfold REPEAT_DELAY. repeat split; [lia|].
    eexists; split; reflexivity. }
  destruct Hheld as (Hheld & Hnow & Hev).
  split.
  { unfold onMozChromeEvent.
    destruct Hpress as [-> | ->];
      match goal with
      | |- context [is_button_type ?t] => change (is_button_type t) with true
      end; cbv iota; rewrite Hs; reflexivity. }
  remember (setState volumeState (Some press) w) as w1 eqn:E. clear E.
  destruct (held_course press w1 _ Hheld) as (Hbefore & Hafter).
  split.
  - intros n Hn. rewrite <- Hev. apply Hbefore. lia.
  - intros k r Hr. cbv zeta.
    destruct (Hafter k r Hr) as (Hh & Hd & Hrep).
    replace (now w + REPEAT_DELAY - now w1) with REPEAT_DELAY in Hh, Hd, Hrep
      by lia.
    rewrite Hev in Hd. split; [exact Hd|]. split; [apply Hh|].
    destruct (held_release press _ _ Hpress Hh) as (w3 & H1 & H2 & H3 & _).
    exists w3. split; [exact H1|]. split; [|exact H3].
    rewrite H2, Hrep. apply app_nil_r.
Qed.

(** ** Two buttons *)

(** In base with nothing pending, time and releases of any button change
    nothing but the clock. *)
Lemma base_no_press_silent w l :
  state w = Some baseState -> pending w = [] -> Forall no_press l ->
  exists w', run l w = Some w' /\ state w' = Some baseState /\
             pending w' = [] /\ dispatched w' = dispatched w /\
             console w' = console w.
Proof.
  intros Hs Hp Hl. revert w Hs Hp.
  induction Hl as [|i l Hi _ IH]; intros w Hs Hp.
  - exists w. now repeat split.
  - assert (exists w1, step i w = Some w1 /\ state w1 = Some baseState /\
                       pending w1 = [] /\ dispatched w1 = dispatched w /\
                       console w1 = console w)
      as (w1 & Hstep & Hs1 & Hp1 & Hd1 & Hc1).
    { destruct Hi as [(ms & ->)|[->|[->|[->| ->]]]].
      - exists (with_now (now w + ms) w). cbn [step].
        rewrite elapse_quiet by assumption. now repeat split.
      - exists w. cbn. unfold onMozChromeEvent; cbn. rewrite Hs.
        now repeat split.
      - exists w. cbn. unfold onMozChromeEvent; cbn. rewrite Hs.
        now repeat split.
      - exists w. cbn. unfold onMozChromeEvent; cbn. rewrite Hs.
        now repeat split.
      - exists w. cbn. unfold onMozChromeEvent; cbn. rewrite Hs.
        now repeat split. }
    destruct (IH w1 Hs1 Hp1) as (w2 & Hr & Hs2 & Hp2 & Hd2 & Hc2).
    exists w2. cbn [run]. rewrite Hstep. repeat split; congruence.
Qed.

Ltac silent_after l Hl :=
  match goal with
  | |- exists w3, run l ?W = _ /\ _ =>
      destruct (base_no_press_silent W l) as (w3 & Hr & Hs & _ & Hd & _);
      [side|side|exact Hl|];
      exists w3; now repeat split
  end.

(** X5. In base: a home press and then, before the hold timer fires, a
    volume press of either direction fire exactly one [home+volume] (after
    the [wake] of the home press when the display was off); the volume state
    is not entered, so whatever is released afterwards and however long one
    waits, no [home], no [holdhome] and no volume event follows. *)
Theorem home_then_volume w n press :
  state w = Some baseState -> pending w = [] -> n < HOLD_INTERVAL ->
  press = "volume-up-button-press" \/ press = "volume-down-button-press" ->
  exists w1 w2,
    onMozChromeEvent "home-button-press" w = Some w1 /\
    onMozChromeEvent press (elapse n w1) = Some w2 /\
    dispatched w2 =
      dispatched w ++ (if screenEnabled w then [] else ["wake"])
                   ++ ["home+volume"] /\
    state w2 = Some baseState /\
    forall l, Forall no_press l ->
      exists w3, run l w2 = Some w3 /\ dispatched w3 = dispatched w2 /\
                 state w3 = Some baseState.
Proof.
  destruct w as [st ht slt dir vt rep wt dg scr clk nxt pend evs cons].
  cbn. intros -> -> Hn Hpress.
  destruct scr; destruct Hpress as [-> | ->];
    (do 2 eexists; split; [crunch; reflexivity|]);
    (erewrite elapse_before by side);
    (split; [crunch; reflexivity|]);
    (split; [crunch; now rewrite <- ?app_assoc|]);
    (split; [side|]);
    intros l Hl; silent_after l Hl.
Qed.

(** X6. In the volume state, at any time of the hold: a home press fires
    exactly one [home+volume], cancels the repeat timer and returns to base;
    the autorepeat is over, and the releases that follow fire nothing. *)
Theorem volume_then_home w :
  well_formed w -> state w = Some volumeState ->
  exists w1,
    onMozChromeEvent "home-button-press" w = Some w1 /\
    dispatched w1 = dispatched w ++ ["home+volume"] /\
    state w1 = Some baseState /\
    pending w1 = [] /\
    volumeState_timer w1 = None /\
    forall l, Forall no_press l ->
      exists w3, run l w1 = Some w3 /\ dispatched w3 = dispatched w1 /\
                 state w3 = Some baseState.
Proof.
  destruct w as [st ht slt dir vt rep wt dg scr clk nxt pend evs cons].
  unfold well_formed. cbn. intros H Hs. subst st.
  destruct H as (h & d & -> & -> & Hlt & _).
  eexists. split; [crunch; reflexivity|].
  split; [side|]. split; [side|]. split; [side|]. split; [side|].
  intros l Hl; silent_after l Hl.
Qed.

(** X7. In base: a sleep press and then, before the hold timer fires, a
    home press fire exactly one [home+sleep] (after the [wake] of the sleep
    press when the display was off) and neither [sleep] nor [home]; the
    machine is back in base and the releases that follow fire nothing. *)
Theorem sleep_then_home w n :
  state w = Some baseState -> pending w = [] -> n < HOLD_INTERVAL ->
  exists w1 w2,
    onMozChromeEvent "sleep-button-press" w = Some w1 /\
    onMozChromeEvent "home-button-press" (elapse n w1) = Some w2 /\
    dispatched w2 =
      dispatched w ++ (if screenEnabled w then [] else ["wake"])
                   ++ ["home+sleep"] /\
    state w2 = Some baseState /\
    forall l, Forall no_press l ->
      exists w3, run l w2 = Some w3 /\ dispatched w3 = dispatched w2 /\
                 state w3 = Some baseState.
Proof.
  destruct w as [st ht slt dir vt rep wt dg scr clk nxt pend evs cons].
  cbn. intros -> -> Hn.
  destruct scr;
    (do 2 eexists; split; [crunch; reflexivity|]);
    (erewrite elapse_before by side);
    (split; [crunch; reflexivity|]);
    (split; [crunch; now rewrite <- ?app_assoc|]);
    (split; [side|]);
    intros l Hl; silent_after l Hl.
Qed.

(** A volume gesture from the moment its press has been processed. *)
Lemma held_gesture press w :
  press = "volume-up-button-press" \/ press = "volume-down-button-press" ->
  held press w (now w + REPEAT_DELAY) -> volumeState_repeating w = false ->
  (forall m, m < REPEAT_DELAY ->
     dispatched (elapse m w) = dispatched w /\
     exists w3,
       onMozChromeEvent (release_of press) (elapse m w) = Some w3 /\
       dispatched w3 = dispatched w ++ [event_of press] /\
       state w3 = Some baseState) /\
  (forall k r, r < REPEAT_INTERVAL ->
     dispatched (elapse (REPEAT_DELAY + k * REPEAT_INTERVAL + r) w) =
       dispatched w ++ repeat (event_of press) (S k) /\
     state (elapse (REPEAT_DELAY + k * REPEAT_INTERVAL + r) w)
       = Some volumeState).
Proof.
  intros Hpress Hheld Hrep.
  destruct (held_course press w _ Hheld) as (Hbefore & Hafter). split.
  - intros m Hm. destruct (Hbefore m) as (Hd & Hr & Hh); [lia|].
    split; [exact Hd|].
    destruct (held_release press _ _ Hpress Hh) as (w3 & H1 & H2 & H3 & _).
    exists w3. split; [exact H1|]. split; [|exact H3].
    rewrite H2, Hr, Hrep, Hd. reflexivity.
  - intros k r Hr. destruct (Hafter k r Hr) as (Hh & Hd & _).
    replace (now w + REPEAT_DELAY - now w) with REPEAT_DELAY in Hh, Hd by lia.
    split; [exact Hd|apply Hh].
Qed.

(** X8. In base: a sleep press and then, before the hold timer fires, a
    volume press of either direction enter the volume state and fire nothing
    (but the [wake] of the sleep press when the display was off).  The hold
    timer of the sleep press is gone: from then on the gesture is a volume
    gesture, with its tap and its autorepeat, the sleep release is ignored,
    and neither [sleep] nor [holdsleep] is fired. *)
Theorem sleep_then_volume w n press :
  state w = Some baseState -> pending w = [] -> n < HOLD_INTERVAL ->
  press = "volume-up-button-press" \/ press = "volume-down-button-press" ->
  exists w1 w2,
    onMozChromeEvent "sleep-button-press" w = Some w1 /\
    onMozChromeEvent press (elapse n w1) = Some w2 /\
    state w2 = Some volumeState /\
    dispatched w2 = dispatched w ++ (if screenEnabled w then [] else ["wake"])
    /\
    onMozChromeEvent "sleep-button-release" w2 = Some w2 /\
    (forall m, m < REPEAT_DELAY ->
       dispatched (elapse m w2) = dispatched w2 /\
       exists w3,
         onMozChromeEvent (release_of press) (elapse m w2) = Some w3 /\
         dispatched w3 = dispatched w2 ++ [event_of press] /\
         state w3 = Some baseState) /\
    (forall k r, r < REPEAT_INTERVAL ->
       dispatched (elapse (REPEAT_DELAY + k * REPEAT_INTERVAL + r) w2) =
         dispatched w2 ++ repeat (event_of press) (S k) /\
       state (elapse (REPEAT_DELAY + k * REPEAT_INTERVAL + r) w2)
         = Some volumeState).
Proof.
  destruct w as [st ht slt dir vt rep wt dg scr clk nxt pend evs cons].
  cbn [state pending screenEnabled dispatched]. intros -> -> Hn Hpress.
  destruct scr; destruct Hpress as [-> | ->];
    (do 2 eexists; split; [crunch; reflexivity|]);
    (erewrite elapse_before by side);
    (split; [crunch; reflexivity|]);
    (split; [side|]);
    (split; [crunch; now rewrite ?app_nil_r|]);
    (split; [crunch; reflexivity|]);
    apply held_gesture;
    first [ now left | now right | side
          | unfold held; crunch; repeat split;
            [lia|eexists; split; reflexivity] ].
Qed.

(** ** What a step adds to the event sink and to the console *)

Ltac pick_in := cbn; repeat (first [left; reflexivity | right]).

Ltac grows :=
  unfold grows_by_one;
  first [ exists (@nil string); split; [crunch; now rewrite app_nil_r|];
          split; [cbn; lia|constructor]
        | eexists; split; [crunch; reflexivity|];
          split; [cbn; lia|];
          apply Forall_cons; [pick_in|constructor] ].

Ltac grows_case Hstep :=
  crunch_in Hstep; injection Hstep as <-; split; [grows|split; grows].

Lemma signal_grows type w w' :
  well_formed w -> onMozChromeEvent type w = Some w' ->
  grows_by_one event_types (dispatched w) (dispatched w') /\
  grows_by_one [type] (console w) (console w') /\
  grows_by_one button_types (console w) (console w').
Proof.
  intros H Hstep. destruct (is_button_type type) eqn:E.
  2:{ unfold onMozChromeEvent in Hstep. rewrite E in Hstep.
      injection Hstep as <-.
      split; [|split]; exists []; (split; [now rewrite app_nil_r|]);
        (split; [cbn; lia|constructor]). }
  apply is_button_type_In in E.
  destruct w as [st ht slt dir vt rep wt dg scr clk nxt pend evs cons].
  unfold well_formed in H; cbn in H.
  destruct st as [[]|]; [| | | | |contradiction].
  - subst pend. destruct scr; each_signal E type; grows_case Hstep.
  - destruct H as (h & d & -> & -> & Hlt).
    each_signal E type; grows_case Hstep.
  - destruct H as (h & d & -> & -> & Hlt).
    each_signal E type; grows_case Hstep.
  - destruct H as (h & d & -> & -> & Hlt & [-> | ->]); destruct rep;
      each_signal E type; grows_case Hstep.
  - destruct H as (h & d & ty & -> & -> & Hlt & [[-> ->] | [-> ->]]);
      each_signal E type; grows_case Hstep.
Qed.

Ltac tick_grows d clk :=
  destruct (Nat.le_gt_cases d (S clk));
  [ erewrite tick_fire by (cbn; first [reflexivity|eassumption])
  | rewrite tick_idle by (repeat constructor; assumption) ];
  (split; [grows|side]).

Lemma tick_grows_by_one w :
  well_formed w ->
  grows_by_one event_types (dispatched w) (dispatched (tick w)) /\
  console (tick w) = console w.
Proof.
  intros H.
  destruct w as [st ht slt dir vt rep wt dg scr clk nxt pend evs cons].
  unfold well_formed in H; cbn in H.
  destruct st as [[]|]; [| | | | |contradiction].
  - subst pend. rewrite tick_idle by constructor. split; [grows|side].
  - destruct H as (h & d & -> & -> & Hlt). tick_grows d clk.
  - destruct H as (h & d & -> & -> & Hlt). tick_grows d clk.
  - destruct H as (h & d & -> & -> & Hlt & [-> | ->]); tick_grows d clk.
  - destruct H as (h & d & ty & -> & -> & Hlt & [[-> ->] | [-> ->]]);
      tick_grows d clk.
Qed.

(** X10. In a well-formed world a raw signal fires at most one high-level
    event and logs at most one line, and a millisecond of waiting fires at
    most one event and logs nothing; what is fired is one of the nine event
    types of the header, what is logged is the type of the signal. *)
Theorem at_most_one_event w :
  well_formed w ->
  (forall type w', onMozChromeEvent type w = Some w' ->
     grows_by_one event_types (dispatched w) (dispatched w') /\
     grows_by_one [type] (console w) (console w')) /\
  grows_by_one event_types (dispatched w) (dispatched (tick w)) /\
  console (tick w) = console w.
Proof.
  intros H. split; [|now apply tick_grows_by_one].
  intros type w' Hstep.
  destruct (signal_grows type w w' H Hstep) as (Hd & Hc & _). now split.
Qed.

Lemma grows_by_one_extends allowed l0 l l' new :
  l = l0 ++ new -> Forall (fun e => In e allowed) new ->
  grows_by_one allowed l l' ->
  exists new', l' = l0 ++ new' /\ Forall (fun e => In e allowed) new'.
Proof.
  intros -> Hnew (more & -> & _ & Hmore).
  exists (new ++ more). split; [now rewrite app_assoc|].
  apply Forall_app. now split.
Qed.

Lemma elapse_grows n w0 w evs logs :
  well_formed w ->
  dispatched w = dispatched w0 ++ evs ->
  Forall (fun e => In e event_types) evs ->
  console w = console w0 ++ logs ->
  exists evs',
    dispatched (elapse n w) = dispatched w0 ++ evs' /\
    Forall (fun e => In e event_types) evs' /\
    console (elapse n w) = console w0 ++ logs.
Proof.
  intros Hwf Hd Hevs Hc. induction n as [|n (evs' & IHd & IHevs & IHc)].
  - now exists evs.
  - rewrite elapse_S.
    destruct (elapse_invariant n w Hwf) as (Hwfn & _).
    destruct (tick_grows_by_one _ Hwfn) as (Hg & Hcon).
    destruct (grows_by_one_extends _ _ _ _ _ IHd IHevs Hg) as (e2 & H2 & H3).
    exists e2. split; [exact H2|]. split; [exact H3|]. congruence.
Qed.

(** X11. Along any run from a well-formed world the event sink and the
    console only grow at their ends: what has been dispatched or logged
    stays, every event added is one of the nine types of the header, and
    every line logged is one of the eight button types. *)
Theorem only_known_events l : forall w0 w,
  well_formed w0 -> run l w0 = Some w ->
  exists evs logs,
    dispatched w = dispatched w0 ++ evs /\
    console w = console w0 ++ logs /\
    Forall (fun e => In e event_types) evs /\
    Forall (fun t => In t button_types) logs.
Proof.
  induction l as [|i l IH]; intros w0 w Hwf Hrun.
  - injection Hrun as <-. exists [], [].
    rewrite !app_nil_r. now repeat split.
  - cbn [run] in Hrun. destruct (step i w0) as [w1|] eqn:Hstep; [|discriminate].
    destruct (step_invariant i w0 Hwf) as (w1' & Hstep' & Hwf1 & _).
    assert (w1' = w1) by congruence. subst w1'.
    destruct (IH w1 w Hwf1 Hrun) as (evs & logs & Hd & Hc & Hevs & Hlogs).
    assert (Hfirst : exists e1 l1,
              dispatched w1 = dispatched w0 ++ e1 /\
              console w1 = console w0 ++ l1 /\
              Forall (fun e => In e event_types) e1 /\
              Forall (fun t => In t button_types) l1).
    { destruct i as [type|ms|b]; cbn in Hstep.
      - destruct (signal_grows type w0 w1 Hwf Hstep)
          as ((e1 & He1 & _ & Hv1) & _ & (l1 & Hl1 & _ & Hb1)).
        now exists e1, l1.
      - injection Hstep as <-.
        destruct (elapse_grows ms w0 w0 [] [] Hwf) as (e1 & He1 & Hv1 & Hc1);
          [now rewrite app_nil_r|constructor|now rewrite app_nil_r|].
        exists e1, []. now repeat split.
      - injection Hstep as <-. exists [], []. cbn.
        rewrite !app_nil_r. now repeat split. }
    destruct Hfirst as (e1 & l1 & Hd1 & Hc1 & Hv1 & Hb1).
    exists (e1 ++ evs), (l1 ++ logs).
    rewrite Hd, Hc, Hd1, Hc1, <- !app_assoc.
    repeat split; apply Forall_app; now split.
Qed.

(** ** The listener never throws *)

(** X13. Whatever button events, waits and screen changes follow the load
    of the module, the listener returns on each of them: [state] is never
    undefined, and in the wake state [delegateState] is never [null] but the
    home or the sleep state object. *)
Theorem listener_never_throws screen clock next l :
  exists w,
    run l (loaded screen clock next) = Some w /\
    state w <> None /\
    (state w = Some wakeState ->
     wakeState_delegateState w = Some homeState \/
     wakeState_delegateState w = Some sleepState) /\
    forall type, exists w', onMozChromeEvent type w = Some w'.
Proof.
  destruct (run_invariant l _ (loaded_well_formed screen clock next))
    as (w & Hrun & Hwf & _).
  exists w. split; [exact Hrun|]. split; [|split].
  - unfold well_formed in Hwf. now destruct (state w).
  - intros Hs. unfold well_formed in Hwf. rewrite Hs in Hwf.
    destruct Hwf as (h & d & ty & _ & _ & _ & [[_ Hd]|[_ Hd]]); auto.
  - intros type.
    destruct (onMozChromeEvent_invariant type w Hwf) as (w' & Hstep & _).
    now exists w'.
Qed.

(** ** Timers are due in time *)

Ltac timely_goal :=
  unfold timely; crunch;
  first [ apply Forall_nil
        | apply Forall_cons; [cbn; lia|apply Forall_nil] ].

Ltac timely_case Hstep :=
  crunch_in Hstep; injection Hstep as <-; timely_goal.

Lemma signal_timely type w w' :
  well_formed w -> timely w -> onMozChromeEvent type w = Some w' -> timely w'.
Proof.
  intros H Ht Hstep. destruct (is_button_type type) eqn:E.
  2:{ unfold onMozChromeEvent in Hstep. rewrite E in Hstep.
      now injection Hstep as <-. }
  apply is_button_type_In in E.
  destruct w as [st ht slt dir vt rep wt dg scr clk nxt pend evs cons].
  unfold well_formed in H; unfold timely in Ht; cbn in H, Ht.
  destruct st as [[]|]; [| | | | |contradiction].
  - subst pend. destruct scr; each_signal E type; timely_case Hstep.
  - destruct H as (h & d & -> & -> & Hlt). apply Forall_inv in Ht. cbn in Ht.
    unfold HOLD_INTERVAL in Ht.
    each_signal E type; timely_case Hstep.
  - destruct H as (h & d & -> & -> & Hlt). apply Forall_inv in Ht. cbn in Ht.
    unfold HOLD_INTERVAL in Ht.
    each_signal E type; timely_case Hstep.
  - destruct H as (h & d & -> & -> & Hlt & [-> | ->]);
      apply Forall_inv in Ht; cbn in Ht; unfold REPEAT_DELAY in Ht;
      destruct rep; each_signal E type; timely_case Hstep.
  - destruct H as (h & d & ty & -> & -> & Hlt & [[-> ->] | [-> ->]]);
      apply Forall_inv in Ht; cbn in Ht; unfold HOLD_INTERVAL in Ht;
      each_signal E type; timely_case Hstep.
Qed.

Ltac tick_timely d clk :=
  destruct (Nat.le_gt_cases d (S clk));
  [ erewrite tick_fire by (cbn; first [reflexivity|eassumption])
  | rewrite tick_idle by (repeat constructor; assumption) ];
  timely_goal.

Lemma tick_timely_inv w : well_formed w -> timely w -> timely (tick w).
Proof.
  intros H Ht.
  destruct w as [st ht slt dir vt rep wt dg scr clk nxt pend evs cons].
  unfold well_formed in H; unfold timely in Ht; cbn in H, Ht.
  destruct st as [[]|]; [| | | | |contradiction].
  - subst pend. rewrite tick_idle by constructor. timely_goal.
  - destruct H as (h & d & -> & -> & Hlt). apply Forall_inv in Ht. cbn in Ht.
    unfold HOLD_INTERVAL in Ht. tick_timely d clk.
  - destruct H as (h & d & -> & -> & Hlt). apply Forall_inv in Ht. cbn in Ht.
    unfold HOLD_INTERVAL in Ht. tick_timely d clk.
  - destruct H as (h & d & -> & -> & Hlt & [-> | ->]);
      apply Forall_inv in Ht; cbn in Ht; unfold REPEAT_DELAY in Ht;
      tick_timely d clk.
  - destruct H as (h & d & ty & -> & -> & Hlt & [[-> ->] | [-> ->]]);
      apply Forall_inv in Ht; cbn in Ht; unfold HOLD_INTERVAL in Ht;
      tick_timely d clk.
Qed.

Lemma elapse_timely n w : well_formed w -> timely w -> timely (elapse n w).
Proof.
  intros H Ht. induction n as [|n IH]; [assumption|].
  rewrite elapse_S. apply tick_timely_inv; [|assumption].
  now apply elapse_invariant.
Qed.

Lemma run_timely l : forall w w',
  well_formed w -> timely w -> run l w = Some w' -> timely w'.
Proof.
  induction l as [|i l IH]; intros w w' H Ht Hrun.
  - now injection Hrun as <-.
  - cbn [run] in Hrun. destruct (step i w) as [w1|] eqn:Hstep; [|discriminate].
    destruct (step_invariant i w H) as (w1' & Hstep' & Hwf1 & _).
    assert (w1' = w1) by congruence. subst w1'.
    apply (IH w1 w' Hwf1); [|assumption].
    destruct i as [type|ms|b]; cbn in Hstep.
    + now apply (signal_timely type w).
    + injection Hstep as <-. now apply elapse_timely.
    + injection Hstep as <-. exact Ht.
Qed.

(** X12. In every world the module reaches from its load, no pending timer
    is overdue and none is due later than [HOLD_INTERVAL] from now.  So a
    machine found in the home, sleep or wake state and left alone for
    [HOLD_INTERVAL] is back in base with no timer pending, having fired
    exactly the hold event of that state. *)
Theorem hold_states_time_out screen clock next l w :
  run l (loaded screen clock next) = Some w ->
  timely w /\
  (state w = Some homeState \/ state w = Some sleepState \/
   state w = Some wakeState ->
   state (elapse HOLD_INTERVAL w) = Some baseState /\
   pending (elapse HOLD_INTERVAL w) = [] /\
   dispatched (elapse HOLD_INTERVAL w) = dispatched w ++ [hold_event w]).
Proof.
  intros Hrun.
  pose proof (reachable_well_formed _ _ _ _ _ Hrun) as H.
  assert (Ht : timely w).
  { apply (run_timely l (loaded screen clock next) w);
      [apply loaded_well_formed|constructor|exact Hrun]. }
  split; [exact Ht|]. clear Hrun. intros Hs.
  destruct w as [st ht slt dir vt rep wt dg scr clk nxt pend evs cons].
  unfold well_formed in H; unfold timely in Ht. cbn in H, Ht, Hs.
  unfold HOLD_INTERVAL.
  destruct st as [[]|]; [| | | | |contradiction].
  - destruct Hs as [Hs|[Hs|Hs]]; discriminate.
  - destruct H as (h & d & -> & -> & Hlt). apply Forall_inv in Ht. cbn in Ht.
    unfold HOLD_INTERVAL in Ht.
    replace 1500 with ((d - clk) + (clk + 1500 - d)) by lia.
    rewrite elapse_add. erewrite (elapse_until (d - clk)) by side.
    rewrite elapse_quiet by side. repeat split; side.
  - destruct H as (h & d & -> & -> & Hlt). apply Forall_inv in Ht. cbn in Ht.
    unfold HOLD_INTERVAL in Ht.
    replace 1500 with ((d - clk) + (clk + 1500 - d)) by lia.
    rewrite elapse_add. erewrite (elapse_until (d - clk)) by side.
    rewrite elapse_quiet by side. repeat split; side.
  - destruct Hs as [Hs|[Hs|Hs]]; discriminate.
  - destruct H as (h & d & ty & -> & -> & Hlt & [[-> ->] | [-> ->]]);
      apply Forall_inv in Ht; cbn in Ht; unfold HOLD_INTERVAL in Ht;
      (replace 1500 with ((d - clk) + (clk + 1500 - d)) by lia);
      rewrite elapse_add; (erewrite (elapse_until (d - clk)) by side);
      (rewrite elapse_quiet by side); repeat split; side.
Qed.

(** ** The display state *)

Ltac screen_case Hcase :=
  destruct Hcase as [Hnb | [Hh Hs]];
  first [ exfalso; apply Hnb; reflexivity
        | exfalso; apply Hh; reflexivity
        | exfalso; apply Hs; reflexivity
        | crunch; reflexivity ].

Ltac tick_screen d clk :=
  destruct (Nat.le_gt_cases d (S clk));
  [ do 2 (erewrite tick_fire by (cbn; first [reflexivity|eassumption]))
  | do 2 (rewrite tick_idle by (cbn; repeat constructor; assumption)) ];
  crunch; reflexivity.

(** X14. [ScreenManager.screenEnabled] is read only by a home press or a
    sleep press that arrives in base.  For every other signal, and for every
    signal in another state, switching the display before the signal gives
    the same world as switching it after; the same holds for the timers. *)
Theorem display_read_only_in_base w b :
  well_formed w ->
  (forall type,
     state w <> Some baseState \/
     (type <> "home-button-press" /\ type <> "sleep-button-press") ->
     onMozChromeEvent type (with_screenEnabled b w) =
       option_map (with_screenEnabled b) (onMozChromeEvent type w)) /\
  tick (with_screenEnabled b w) = with_screenEnabled b (tick w).
Proof.
  intros H. split.
  - intros type Hcase. destruct (is_button_type type) eqn:E.
    2:{ unfold onMozChromeEvent. now rewrite E. }
    apply is_button_type_In in E.
    destruct w as [st ht slt dir vt rep wt dg scr clk nxt pend evs cons].
    unfold well_formed in H; cbn in H, Hcase.
    destruct st as [[]|]; [| | | | |contradiction].
    + subst pend. destruct scr, b; each_signal E type; screen_case Hcase.
    + destruct H as (h & d & -> & -> & Hlt).
      each_signal E type; screen_case Hcase.
    + destruct H as (h & d & -> & -> & Hlt).
      each_signal E type; screen_case Hcase.
    + destruct H as (h & d & -> & -> & Hlt & [-> | ->]); destruct rep;
        each_signal E type; screen_case Hcase.
    + destruct H as (h & d & ty & -> & -> & Hlt & [[-> ->] | [-> ->]]);
        each_signal E type; screen_case Hcase.
  - destruct w as [st ht slt dir vt rep wt dg scr clk nxt pend evs cons].
    unfold well_formed in H; cbn in H.
    destruct st as [[]|]; [| | | | |contradiction].
    + subst pend. rewrite !tick_idle by constructor. reflexivity.
    + destruct H as (h & d & -> & -> & Hlt). tick_screen d clk.
    + destruct H as (h & d & -> & -> & Hlt). tick_screen d clk.
    + destruct H as (h & d & -> & -> & Hlt & [-> | ->]); tick_screen d clk.
    + destruct H as (h & d & ty & -> & -> & Hlt & [[-> ->] | [-> ->]]);
        tick_screen d clk.
Qed.

(** ** The further theorems at concrete worlds *)

Lemma home_hold_witness :
  exists w1,
    onMozChromeEvent "home-button-press" (loaded true 0 1) = Some w1 /\
    dispatched (elapse 2000 w1) = ["holdhome"] /\
    exists w2,
      onMozChromeEvent "home-button-release" (elapse 2000 w1) = Some w2 /\
      dispatched w2 = ["holdhome"].
Proof.
  assert (Hn : HOLD_INTERVAL <= 2000) by (unfold HOLD_INTERVAL; lia).
  destruct (home_hold (loaded true 0 1) 2000 eq_refl eq_refl eq_refl Hn)
    as (w1 & w2 & H1 & _ & H2 & _ & H3 & H4 & _).
  exists w1. split; [exact H1|]. split; [exact H2|].
  exists w2. split; [exact H3|exact H4].
Defined.

Lemma sleep_tap_witness :
  exists w1 w2,
    onMozChromeEvent "sleep-button-press" (loaded true 0 1) = Some w1 /\
    onMozChromeEvent "sleep-button-release" (elapse 100 w1) = Some w2 /\
    dispatched w2 = ["sleep"].
Proof.
  assert (Hn : 100 < HOLD_INTERVAL) by (unfold HOLD_INTERVAL; lia).
  destruct (sleep_tap (loaded true 0 1) 100 eq_refl eq_refl eq_refl Hn)
    as (w1 & w2 & H1 & _ & _ & H2 & H3 & _).
  exists w1, w2. split; [exact H1|]. split; [exact H2|exact H3].
Defined.

Lemma sleep_hold_witness :
  exists w1,
    onMozChromeEvent "sleep-button-press" (loaded true 0 1) = Some w1 /\
    dispatched (elapse 1500 w1) = ["holdsleep"].
Proof.
  destruct (sleep_hold (loaded true 0 1) 1500 eq_refl eq_refl eq_refl
              (le_n 1500))
    as (w1 & w2 & H1 & _ & H2 & _).
  exists w1. split; [exact H1|exact H2].
Defined.

Lemma wake_home_then_hold_witness :
  exists w1,
    onMozChromeEvent "home-button-press" (loaded false 0 1) = Some w1 /\
    dispatched (elapse 1500 w1) = ["wake"; "holdhome"].
Proof.
  destruct (wake_home_then_hold (loaded false 0 1) eq_refl eq_refl eq_refl)
    as (w1 & H1 & _ & _ & _ & Hhold & _).
  exists w1. split; [exact H1|]. exact (proj1 (Hhold 1500 (le_n 1500))).
Defined.

Lemma home_then_volume_witness :
  exists w1 w2,
    onMozChromeEvent "home-button-press" (loaded true 0 1) = Some w1 /\
    onMozChromeEvent "volume-down-button-press" (elapse 100 w1) = Some w2 /\
    dispatched w2 = ["home+volume"].
Proof.
  assert (Hn : 100 < HOLD_INTERVAL) by (unfold HOLD_INTERVAL; lia).
  destruct (home_then_volume (loaded true 0 1) 100 "volume-down-button-press"
              eq_refl eq_refl Hn (or_intror eq_refl))
    as (w1 & w2 & H1 & H2 & H3 & _).
  exists w1, w2. split; [exact H1|]. split; [exact H2|exact H3].
Defined.

Lemma volume_then_home_witness :
  exists w1,
    onMozChromeEvent "home-button-press" volume_down_held = Some w1 /\
    dispatched w1 = ["home+volume"] /\ pending w1 = [].
Proof.
  assert (Hwf : well_formed volume_down_held).
  { vm_compute. exists 1%positive, 700. repeat split. now right. }
  destruct (volume_then_home volume_down_held Hwf eq_refl)
    as (w1 & H1 & H2 & _ & H3 & _).
  exists w1. split; [exact H1|]. split; [exact H2|exact H3].
Defined.

Lemma sleep_then_home_witness :
  exists w1 w2,
    onMozChromeEvent "sleep-button-press" (loaded false 0 1) = Some w1 /\
    onMozChromeEvent "home-button-press" (elapse 100 w1) = Some w2 /\
    dispatched w2 = ["wake"; "home+sleep"].
Proof.
  assert (Hn : 100 < HOLD_INTERVAL) by (unfold HOLD_INTERVAL; lia).
  destruct (sleep_then_home (loaded false 0 1) 100 eq_refl eq_refl Hn)
    as (w1 & w2 & H1 & H2 & H3 & _).
  exists w1, w2. split; [exact H1|]. split; [exact H2|exact H3].
Defined.

Lemma sleep_then_volume_witness :
  exists w1 w2,
    onMozChromeEvent "sleep-button-press" (loaded true 0 1) = Some w1 /\
    onMozChromeEvent "volume-up-button-press" (elapse 100 w1) = Some w2 /\
    dispatched w2 = [] /\
    dispatched (elapse (REPEAT_DELAY + 9 * REPEAT_INTERVAL + 0) w2) =
      dispatched w2 ++ repeat "volumeup" 10.
Proof.
  assert (Hn : 100 < HOLD_INTERVAL) by (unfold HOLD_INTERVAL; lia).
  assert (Hr : 0 < REPEAT_INTERVAL) by (unfold REPEAT_INTERVAL; lia).
  destruct (sleep_then_volume (loaded true 0 1) 100 "volume-up-button-press"
              eq_refl eq_refl Hn (or_introl eq_refl))
    as (w1 & w2 & H1 & H2 & _ & H3 & _ & _ & Hrep).
  exists w1, w2. split; [exact H1|]. split; [exact H2|]. split; [exact H3|].
  exact (proj1 (Hrep 9 0 Hr)).
Defined.

Lemma autorepeat_either_direction_witness :
  exists w1,
    onMozChromeEvent "volume-down-button-press" (loaded true 0 1) = Some w1 /\
    dispatched (elapse (REPEAT_DELAY + 2 * REPEAT_INTERVAL + 50) w1) =
      ["volumedown"; "volumedown"; "volumedown"].
Proof.
  assert (Hr : 50 < REPEAT_INTERVAL) by (unfold REPEAT_INTERVAL; lia).
  destruct (autorepeat_either_direction (loaded true 0 1)
              "volume-down-button-press" eq_refl eq_refl (or_intror eq_refl))
    as (w1 & H1 & _ & Hrep).
  exists w1. split; [exact H1|]. exact (proj1 (Hrep 2 50 Hr)).
Defined.

Lemma at_most_one_event_witness :
  grows_by_one event_types (dispatched home_held) (dispatched (tick home_held)).
Proof.
  assert (Hwf : well_formed home_held).
  { vm_compute. exists 1%positive, 1500. repeat split. }
  exact (proj1 (proj2 (at_most_one_event home_held Hwf))).
Defined.

Lemma only_known_events_witness :
  exists w evs logs,
    run [MozChromeEvent "home-button-press"; MozChromeEvent "home-button-press";
         MozChromeEvent "volume-up-button-press"; Elapse 900]
        (loaded true 0 1) = Some w /\
    dispatched w = evs /\ console w = logs /\
    Forall (fun e => In e event_types) evs /\
    Forall (fun t => In t button_types) logs.
Proof.
  eexists. 
  assert (Hrun : run [MozChromeEvent "home-button-press";
                      MozChromeEvent "home-button-press";
                      MozChromeEvent "volume-up-button-press"; Elapse 900]
                     (loaded true 0 1)
                 = Some (elapse 900
                           (setState volumeState
                              (Some "volume-up-button-press")
                              (unexpected "home-button-press" home_held))))
    by (vm_compute; reflexivity).
  destruct (only_known_events _ _ _ (loaded_well_formed true 0 1) Hrun)
    as (evs & logs & Hd & Hc & Hevs & Hlogs).
  exists evs, logs. split; [exact Hrun|]. split; [exact Hd|].
  split; [exact Hc|]. split; assumption.
Defined.

Lemma hold_states_time_out_witness :
  state (elapse HOLD_INTERVAL (elapse 200 home_held)) = Some baseState /\
  dispatched (elapse HOLD_INTERVAL (elapse 200 home_held)) = ["holdhome"].
Proof.
  assert (Hrun : run [MozChromeEvent "home-button-press"; Elapse 200]
                     (loaded true 0 1) = Some (elapse 200 home_held))
    by (vm_compute; reflexivity).
  assert (Hs : state (elapse 200 home_held) = Some homeState)
    by (vm_compute; reflexivity).
  destruct (proj2 (hold_states_time_out true 0 1 _ _ Hrun) (or_introl Hs))
    as (H1 & _ & H2).
  split; [exact H1|].
  rewrite H2. vm_compute. reflexivity.
Defined.

Lemma display_read_only_in_base_witness :
  onMozChromeEvent "home-button-release" (with_screenEnabled false home_held) =
    option_map (with_screenEnabled false)
      (onMozChromeEvent "home-button-release" home_held).
Proof.
  assert (Hwf : well_formed home_held).
  { vm_compute. exists 1%positive, 1500. repeat split. }
  apply (proj1 (display_read_only_in_base home_held false Hwf)).
  left. vm_compute. discriminate.
Defined.
